(** * WebSocketMCPTransport: a shallow embedding of
      [examples/hono/src/mcp-ws-example.ts] (class [WebSocketMCPTransport])

    The transport object is a record, its methods are computations in a
    small monad that threads the object, collects the observable effects
    (socket constructions, timer delays, socket writes, consumer callbacks)
    in a trace and ends in one of three ways: returned, threw, or never
    settled.  What the platform does (the [ws] socket, timers) is given to a
    method as a script, one entry per request the method makes.  A method
    runs from its call to its end with no other method and no socket event
    in between; the events of a socket reach the object through the handlers
    that [_connect] installs, which are functions of their own here.

    The file also holds the example script [main()], embedded further down
    over the outcomes of the client library it calls, and a model of the
    codec (JSON text and a schema) on which sending and receiving are
    composed. *)

From Stdlib Require Import String Ascii List Bool Arith Lia.
From Stdlib.Strings Require Import Byte.
From Stdlib Require Import ZArith.
From Stdlib Require DecimalString DecimalN DecimalPos DecimalFacts.
Import ListNotations.
Local Open Scope string_scope.
Local Open Scope list_scope.
Local Open Scope nat_scope.
Set Warnings "-register-all".

(** ** JavaScript exception values *)

(** [Error message cause] is an object built by [new Error(message)] whose
    [cause] field was (or was not) assigned afterwards.  [Foreign] is any value
    thrown by code outside the class (the socket library, the JSON functions,
    the schema, a consumer callback): [isError] answers [instanceof Error] and
    [text] is what [String(value)] yields. *)
Inductive Exn : Type :=
| Error (message : string) (cause : option Exn)
| Foreign (isError : bool) (text : string).

Definition instanceof_Error (e : Exn) : bool :=
  match e with
  | Error _ _ => true
  | Foreign isError _ => isError
  end.

Definition String_of (e : Exn) : string :=
  match e with
  | Error message _ => "Error: " ++ message
  | Foreign _ text => text
  end.

(** How a consumer callback ends. *)
Inductive CallbackResult : Type :=
| CbReturns
| CbThrows (e : Exn).

(** ** The platform *)

(** Everything the class imports or takes from the runtime: the protocol
    message type with its schema ([./json-rpc-message]), the JSON functions,
    UTF-8 decoding of buffers and the [URL] class.  A synchronous platform
    function returns [inr] of its value or [inl] of the exception it throws. *)
Class Platform : Type := {
  JSONRPCMessage : Type;
  JSValue : Type;
  URL : Type;
  JSON_stringify : JSONRPCMessage -> string;
  JSON_parse : string -> Exn + JSValue;
  JSONRPCMessageSchema_parse : JSValue -> Exn + JSONRPCMessage;
  Buffer_toString_utf8 : list byte -> string;
  new_URL : string -> Exn + URL;
  href : URL -> string
}.

(** [WebSocket.readyState]. *)
Inductive ReadyState : Type := CONNECTING | OPEN | CLOSING | CLOSED.

Definition ReadyState_eqb (a b : ReadyState) : bool :=
  match a, b with
  | CONNECTING, CONNECTING | OPEN, OPEN | CLOSING, CLOSING | CLOSED, CLOSED => true
  | _, _ => false
  end.

(** A socket handle: the identity of one [WebSocket] object. *)
Definition Socket : Type := nat.

Definition Headers : Type := list (string * string).

Record AbortController : Type := { aborted : bool }.

(** const MAX_RETRIES = 3;  const RETRY_DELAY_MS = 1000; *)
Definition MAX_RETRIES : nat := 3.
Definition RETRY_DELAY_MS : nat := 1000.

(** [url.replace(/^http/i, 'ws')]: the pattern is anchored at the start and
    matches the four letters without regard to case. *)
Definition is_letter (lower upper c : ascii) : bool :=
  Ascii.eqb c lower || Ascii.eqb c upper.

Definition replace_http_prefix (url : string) : string :=
  match url with
  | String c1 (String c2 (String c3 (String c4 rest))) =>
      if is_letter "h" "H" c1 && is_letter "t" "T" c2 &&
         is_letter "t" "T" c3 && is_letter "p" "P" c4
      then "ws" ++ rest
      else url
  | _ => url
  end.

(** How a computation ends: [Pending] is a promise that is never settled. *)
Inductive Completion (A : Type) : Type :=
| Returned (a : A)
| Threw (e : Exn)
| Pending.

Arguments Returned {A} a.
Arguments Threw {A} e.
Arguments Pending {A}.

Section Transport.

Context {P : Platform}.

(** interface WebSocketMessageEvent { data: string | Buffer | ArrayBuffer | Buffer[] } *)
Inductive MessageData : Type :=
| DataString (s : string)
| DataBuffer (bytes : list byte)
| DataArrayBuffer (bytes : list byte)
| DataBufferArray (chunks : list (list byte)).

(** The fields of the class. *)
Record WebSocketMCPTransport : Type := {
  socket : option Socket;
  url : URL;
  connected : bool;
  abortController : AbortController;
  headers : option Headers;
  onclose : option (unit -> CallbackResult);
  onerror : option (Exn -> CallbackResult);
  onmessage : option (JSONRPCMessage -> CallbackResult)
}.

(** ** Observable effects *)

Inductive Event : Type :=
| NewWebSocket (address : string) (hdrs : option Headers) (signal_aborted : bool)
| Delay (ms : nat)
| SocketSend (s : Socket) (data : string)
| SocketClose (s : Socket)
| Abort
| CallOnError (e : Exn)
| CallOnClose
| CallOnMessage (m : JSONRPCMessage)
| Uncaught (e : Exn).

(** ** The monad: object state, trace, completion *)

Definition M (A : Type) : Type :=
  WebSocketMCPTransport -> Completion A * WebSocketMCPTransport * list Event.

Definition ret {A} (a : A) : M A := fun t => (Returned a, t, []).

Definition bind {A B} (c : M A) (k : A -> M B) : M B :=
  fun t =>
    match c t with
    | (Returned a, t1, tr1) =>
        match k a t1 with
        | (r, t2, tr2) => (r, t2, tr1 ++ tr2)
        end
    | (Threw e, t1, tr1) => (Threw e, t1, tr1)
    | (Pending, t1, tr1) => (Pending, t1, tr1)
    end.

Definition throw {A} (e : Exn) : M A := fun t => (Threw e, t, []).

Definition suspend {A} : M A := fun t => (Pending, t, []).

Definition emit (ev : Event) : M unit := fun t => (Returned tt, t, [ev]).

Definition this : M WebSocketMCPTransport := fun t => (Returned t, t, []).

Definition modify (f : WebSocketMCPTransport -> WebSocketMCPTransport) : M unit :=
  fun t => (Returned tt, f t, []).

(** try { body } catch (error) { handler error } *)
Definition try_catch {A} (body : M A) (handler : Exn -> M A) : M A :=
  fun t =>
    match body t with
    | (Threw e, t1, tr1) =>
        match handler e t1 with
        | (r, t2, tr2) => (r, t2, tr1 ++ tr2)
        end
    | other => other
    end.

Definition lift {A} (r : Exn + A) : M A :=
  match r with
  | inl e => throw e
  | inr a => ret a
  end.

End Transport.

Declare Scope js_scope.
Delimit Scope js_scope with js.
Notation "x <- c ;; k" := (bind c (fun x => k))
  (at level 61, c at next level, right associativity) : js_scope.
Notation "c ;; k" := (bind c (fun _ => k))
  (at level 61, right associativity) : js_scope.
Local Open Scope js_scope.

Section Methods.

Context {P : Platform}.

(** ** Consumer callbacks: [this.onerror?.(e)], [this.onclose?.()],
    [this.onmessage?.(m)].  An empty slot does nothing; a registered callback
    is called (the call is recorded) and either returns or throws. *)

Definition call (r : CallbackResult) : M unit :=
  match r with
  | CbReturns => ret tt
  | CbThrows e => throw e
  end.

Definition call_onerror (e : Exn) : M unit :=
  t <- this ;;
  match onerror t with
  | None => ret tt
  | Some cb => emit (CallOnError e) ;; call (cb e)
  end.

Definition call_onclose : M unit :=
  t <- this ;;
  match onclose t with
  | None => ret tt
  | Some cb => emit CallOnClose ;; call (cb tt)
  end.

Definition call_onmessage (m : JSONRPCMessage) : M unit :=
  t <- this ;;
  match onmessage t with
  | None => ret tt
  | Some cb => emit (CallOnMessage m) ;; call (cb m)
  end.

(** ** Field updates *)

Definition set_socket (s : option Socket) (t : WebSocketMCPTransport) :
  WebSocketMCPTransport :=
  {| socket := s; url := url t; connected := connected t;
     abortController := abortController t; headers := headers t;
     onclose := onclose t; onerror := onerror t; onmessage := onmessage t |}.

Definition set_connected (b : bool) (t : WebSocketMCPTransport) :
  WebSocketMCPTransport :=
  {| socket := socket t; url := url t; connected := b;
     abortController := abortController t; headers := headers t;
     onclose := onclose t; onerror := onerror t; onmessage := onmessage t |}.

Definition set_aborted (t : WebSocketMCPTransport) : WebSocketMCPTransport :=
  {| socket := socket t; url := url t; connected := connected t;
     abortController := {| aborted := true |}; headers := headers t;
     onclose := onclose t; onerror := onerror t; onmessage := onmessage t |}.

(** ** constructor({ url, headers }) *)
Definition new_WebSocketMCPTransport (url_ : string) (headers_ : option Headers) :
  Exn + WebSocketMCPTransport :=
  match new_URL (replace_http_prefix url_) with
  | inl e => inl e
  | inr u =>
      inr {| socket := None; url := u; connected := false;
             abortController := {| aborted := false |}; headers := headers_;
             onclose := None; onerror := None; onmessage := None |}
  end.

(** ** The handlers installed on a socket by [_connect] *)

(** this.socket.onclose = () => { this.connected = false; this.onclose?.(); } *)
Definition socket_onclose : M unit :=
  modify (set_connected false) ;;
  call_onclose.

Definition connection_error (cause : Exn) : Exn :=
  Error "MCP WebSocket Transport Error: Connection error" (Some cause).

(** this.socket.onerror: builds the error, reports it, then rejects the
    promise of [_connect] with it.  The value returned here is the error passed
    to [reject]; an exception thrown by the consumer's callback leaves the
    handler before [reject] is reached. *)
Definition socket_onerror (cause : Exn) : M Exn :=
  let error := connection_error cause in
  call_onerror error ;;
  ret error.

Definition parse_error (cause : Exn) : Exn :=
  Error "MCP WebSocket Transport Error: Failed to parse message" (Some cause).

Definition unsupported_data : Exn :=
  Error "MCP WebSocket Transport Error: Unsupported data type" None.

(** The first half of the [try] block of [socket.onmessage]: the text of
    the payload. *)
Definition dataString (data : MessageData) : Exn + string :=
  match data with
  | DataString s => inr s
  | DataBuffer bytes => inr (Buffer_toString_utf8 bytes)
  | DataArrayBuffer bytes => inr (Buffer_toString_utf8 bytes)
  | DataBufferArray _ => inl unsupported_data
  end.

(** this.socket.onmessage *)
Definition socket_onmessage (data : MessageData) : M unit :=
  try_catch
    (s <- lift (dataString data) ;;
     j <- lift (JSON_parse s) ;;
     message <- lift (JSONRPCMessageSchema_parse j) ;;
     call_onmessage message)
    (fun parseError => call_onerror (parse_error parseError)).

(** ** _connect() *)

(** What the platform does with one connect attempt: the constructor
    throws, or it returns a socket that then emits [open] or [error]. *)
Inductive ConnectOutcome : Type :=
| CtorThrows (e : Exn)
| SocketOpens (s : Socket)
| SocketErrors (s : Socket) (cause : Exn).

(** The promise of [_connect]: [Returned] is [resolve()], [Threw e] is
    [reject(e)]. *)
Definition _connect (o : ConnectOutcome) : M unit :=
  t <- this ;;
  emit (NewWebSocket (href (url t)) (headers t) (aborted (abortController t))) ;;
  match o with
  | CtorThrows e => throw e
  | SocketOpens s => modify (set_socket (Some s))
  | SocketErrors s cause =>
      modify (set_socket (Some s)) ;;
      fun t1 =>
        match socket_onerror cause t1 with
        | (Returned error, t2, tr) => (Threw error, t2, tr)
        | (Threw x, t2, tr) => (Pending, t2, tr ++ [Uncaught x])
        | (Pending, t2, tr) => (Pending, t2, tr)
        end
  end.

(** const delay = (ms) => new Promise(resolve => setTimeout(resolve, ms)) *)
Definition delay (ms : nat) : M unit := emit (Delay ms).

(** ** start() *)

(** The [while] loop of [start]; every iteration takes the outcome of its
    connect attempt from the script.  With no outcome left the platform
    stays silent and the awaited promise is never settled. *)
Fixpoint start_loop (script : list ConnectOutcome) (attempts : nat) : M unit :=
  if attempts <? MAX_RETRIES then
    match script with
    | [] => suspend
    | o :: script' =>
        try_catch
          (_connect o ;;
           modify (set_connected true))
          (fun error =>
             let attempts := S attempts in
             if attempts =? MAX_RETRIES then throw error
             else delay RETRY_DELAY_MS ;; start_loop script' attempts)
    end
  else ret tt.

Definition start (script : list ConnectOutcome) : M unit :=
  t <- this ;;
  if connected t then ret tt
  else start_loop script 0.

(** ** close() *)

(** The state in which [close] finds the socket, and whether the socket's
    own [close()] throws. *)
Record CloseEnv : Type := {
  close_readyState : ReadyState;
  close_throws : option Exn
}.

Definition socket_close (s : Socket) (env : CloseEnv) : M unit :=
  emit (SocketClose s) ;;
  match close_throws env with
  | Some e => throw e
  | None => ret tt
  end.

Definition close (env : CloseEnv) : M unit :=
  modify (set_connected false) ;;
  emit Abort ;;
  modify set_aborted ;;
  t <- this ;;
  match socket t with
  | Some s =>
      (if ReadyState_eqb (close_readyState env) OPEN
       then socket_close s env
       else ret tt) ;;
      modify (set_socket None)
  | None => ret tt
  end ;;
  call_onclose.

(** ** send(message) *)

Inductive WriteOutcome : Type :=
| WriteThrows (e : Exn)
| WriteFails (e : Exn)
| WriteSucceeds.

(** One iteration of the loop of [send]: the [readyState] it reads and, when
    the socket is open, what the write does. *)
Record SendAttempt : Type := {
  ready : ReadyState;
  write : WriteOutcome
}.

Definition not_connected : Exn :=
  Error "MCP WebSocket Transport Error: Not connected" None.

Definition socket_not_open : Exn :=
  Error "MCP WebSocket Transport Error: Socket not in OPEN state" None.

Definition send_error (cause : Exn) : Exn :=
  Error "MCP WebSocket Transport Error: Failed to send message" (Some cause).

(** Reading a property of [this.socket] when the field is [undefined]. *)
Definition undefined_socket : Exn :=
  Foreign true "TypeError: Cannot read properties of undefined".

(** The promise around [this.socket.send(JSON.stringify(message), callback)]. *)
Definition socket_send (s : Socket) (data : string) (w : WriteOutcome) : M unit :=
  emit (SocketSend s data) ;;
  match w with
  | WriteThrows e => throw (send_error e)
  | WriteFails e => throw (send_error e)
  | WriteSucceeds => ret tt
  end.

(** The [try] block of the loop of [send]. *)
Definition send_attempt (message : JSONRPCMessage) (a : SendAttempt) : M unit :=
  t <- this ;;
  match socket t with
  | None => throw undefined_socket
  | Some s =>
      if negb (ReadyState_eqb (ready a) OPEN) then throw socket_not_open
      else socket_send s (JSON_stringify message) (write a)
  end.

Fixpoint send_loop (message : JSONRPCMessage) (script : list SendAttempt)
  (attempts : nat) : M unit :=
  if attempts <? MAX_RETRIES then
    match script with
    | [] => suspend
    | a :: script' =>
        try_catch
          (send_attempt message a)
          (fun error =>
             let attempts := S attempts in
             if attempts =? MAX_RETRIES then
               (if instanceof_Error error then call_onerror error
                else call_onerror (Error (String_of error) None)) ;;
               throw error
             else delay RETRY_DELAY_MS ;; send_loop message script' attempts)
    end
  else ret tt.

Definition send (message : JSONRPCMessage) (script : list SendAttempt) : M unit :=
  t <- this ;;
  match socket t with
  | None => throw not_connected
  | Some _ =>
      if negb (connected t) then throw not_connected
      else send_loop message script 0
  end.

End Methods.

(** ** Reading a trace *)

Section Observations.

Context {P : Platform}.

(** The errors passed to the consumer's error callback, in order. *)
Fixpoint error_reports (tr : list Event) : list Exn :=
  match tr with
  | [] => []
  | CallOnError e :: tr' => e :: error_reports tr'
  | _ :: tr' => error_reports tr'
  end.

(** The messages passed to the consumer's message callback, in order. *)
Fixpoint deliveries (tr : list Event) : list JSONRPCMessage :=
  match tr with
  | [] => []
  | CallOnMessage m :: tr' => m :: deliveries tr'
  | _ :: tr' => deliveries tr'
  end.

(** How often the consumer's close callback was called. *)
Fixpoint close_calls (tr : list Event) : nat :=
  match tr with
  | [] => 0
  | CallOnClose :: tr' => S (close_calls tr')
  | _ :: tr' => close_calls tr'
  end.

(** How many sockets were constructed, that is, connect attempts made. *)
Fixpoint connect_attempts (tr : list Event) : nat :=
  match tr with
  | [] => 0
  | NewWebSocket _ _ _ :: tr' => S (connect_attempts tr')
  | _ :: tr' => connect_attempts tr'
  end.

(** The frames handed to [socket.send], in order. *)
Fixpoint socket_writes (tr : list Event) : list (Socket * string) :=
  match tr with
  | [] => []
  | SocketSend s data :: tr' => (s, data) :: socket_writes tr'
  | _ :: tr' => socket_writes tr'
  end.

(** The timing skeleton of a run: attempts (a socket construction or a
    socket write) and the timer delays between them. *)
Inductive Tick : Type :=
| Attempt
| Wait (ms : nat).

Fixpoint schedule (tr : list Event) : list Tick :=
  match tr with
  | [] => []
  | NewWebSocket _ _ _ :: tr' => Attempt :: schedule tr'
  | SocketSend _ _ :: tr' => Attempt :: schedule tr'
  | Delay ms :: tr' => Wait ms :: schedule tr'
  | _ :: tr' => schedule tr'
  end.

(** [n] failed attempts, each followed by the backoff, then one more
    attempt. *)
Fixpoint retried (n : nat) : list Tick :=
  match n with
  | 0 => [Attempt]
  | S n' => Attempt :: Wait RETRY_DELAY_MS :: retried n'
  end.

(** ** Connect attempts that fail *)

(** The error with which the promise of [_connect] is rejected, if it is:
    the exception of the socket constructor, or the error built by
    [socket.onerror], which reaches [reject] once the consumer's error
    callback (given as [cb]) has returned. *)
Definition rejection (cb : option (Exn -> CallbackResult)) (o : ConnectOutcome) :
  option Exn :=
  match o with
  | CtorThrows e => Some e
  | SocketOpens _ => None
  | SocketErrors _ cause =>
      match cb with
      | None => Some (connection_error cause)
      | Some f =>
          match f (connection_error cause) with
          | CbReturns => Some (connection_error cause)
          | CbThrows _ => None
          end
      end
  end.

(** The errors that the failing attempts of a script report through
    [socket.onerror]. *)
Definition socket_error_of (o : ConnectOutcome) : list Exn :=
  match o with
  | SocketErrors _ cause => [connection_error cause]
  | _ => []
  end.

(** The object after a connect attempt: [this.socket] is assigned as soon as
    the socket is constructed, whatever the socket does next. *)
Definition after_attempt (o : ConnectOutcome) (t : WebSocketMCPTransport) :
  WebSocketMCPTransport :=
  match o with
  | CtorThrows _ => t
  | SocketOpens s => set_socket (Some s) t
  | SocketErrors s _ => set_socket (Some s) t
  end.

Fixpoint after_attempts (l : list ConnectOutcome) (t : WebSocketMCPTransport) :
  WebSocketMCPTransport :=
  match l with
  | [] => t
  | o :: l' => after_attempts l' (after_attempt o t)
  end.

(** The construction [new WebSocket(this.url.href, { headers, signal })]. *)
Definition construction (t : WebSocketMCPTransport) : Event :=
  NewWebSocket (href (url t)) (headers t) (aborted (abortController t)).

(** The trace of one failing connect attempt. *)
Definition attempt_events (t : WebSocketMCPTransport) (o : ConnectOutcome) :
  list Event :=
  construction t ::
  match onerror t with
  | Some _ => map CallOnError (socket_error_of o)
  | None => []
  end.

(** The trace of failing connect attempts that are each followed by a
    retry. *)
Fixpoint failed_connects (t : WebSocketMCPTransport) (l : list ConnectOutcome) :
  list Event :=
  match l with
  | [] => []
  | o :: l' =>
      attempt_events t o ++
      Delay RETRY_DELAY_MS :: failed_connects (after_attempt o t) l'
  end.

(** ** Send attempts that fail *)

(** The error caught by the loop of [send] for one attempt, if any. *)
Definition attempt_error (a : SendAttempt) : option Exn :=
  if negb (ReadyState_eqb (ready a) OPEN) then Some socket_not_open
  else
    match write a with
    | WriteThrows e => Some (send_error e)
    | WriteFails e => Some (send_error e)
    | WriteSucceeds => None
    end.

(** What one attempt of [send] on socket [s] does to the socket. *)
Definition attempt_trace (s : Socket) (data : string) (a : SendAttempt) :
  list Event :=
  if negb (ReadyState_eqb (ready a) OPEN) then [] else [SocketSend s data].

(** The trace of the failed attempts that precede a retry. *)
Fixpoint failed_sends (s : Socket) (data : string) (l : list SendAttempt) :
  list Event :=
  match l with
  | [] => []
  | a :: l' => attempt_trace s data a ++ Delay RETRY_DELAY_MS :: failed_sends s data l'
  end.

(** ** The receive path over several events *)

(** The text of a payload parsed and validated: the [try] block of
    [socket.onmessage] up to the call of the message callback. *)
Definition decode (data : MessageData) : Exn + JSONRPCMessage :=
  match dataString data with
  | inl e => inl e
  | inr s =>
      match JSON_parse s with
      | inl e => inl e
      | inr j => JSONRPCMessageSchema_parse j
      end
  end.

(** The socket emits its message events one after the other; each one runs
    [socket.onmessage]. *)
Fixpoint receive (events : list MessageData) : M unit :=
  match events with
  | [] => ret tt
  | data :: later => socket_onmessage data ;; receive later
  end.

(** The object once [close] has run to its end. *)
Definition closed (t : WebSocketMCPTransport) : WebSocketMCPTransport :=
  {| socket := None; url := url t; connected := false;
     abortController := {| aborted := true |}; headers := headers t;
     onclose := onclose t; onerror := onerror t; onmessage := onmessage t |}.

(** The object in which a run ends, and its trace. *)
Definition state_of {A} (run : Completion A * WebSocketMCPTransport * list Event) :
  WebSocketMCPTransport := snd (fst run).

Definition trace_of {A} (run : Completion A * WebSocketMCPTransport * list Event) :
  list Event := snd run.

Definition result_of {A} (run : Completion A * WebSocketMCPTransport * list Event) :
  Completion A := fst (fst run).

(** What the platform does after [close]: a socket on which [close()] was
    called while it was open completes the closing handshake and emits its
    close event.  The handler that [_connect] installed on that socket is
    still in place, [close] only drops the reference to the socket, and it
    runs then.  A socket that was not open, or no socket, emits nothing. *)
Definition close_then_close_event (env : CloseEnv) : M unit :=
  t <- this ;;
  close env ;;
  match socket t with
  | Some _ =>
      if ReadyState_eqb (close_readyState env) OPEN then socket_onclose
      else ret tt
  | None => ret tt
  end.

(** The messages among [events] that decode, in arrival order. *)
Fixpoint decoded (events : list MessageData) : list JSONRPCMessage :=
  match events with
  | [] => []
  | data :: later =>
      match decode data with
      | inr m => m :: decoded later
      | inl _ => decoded later
      end
  end.

End Observations.

(** ** A small platform to run the model on

    Messages are the two shapes of the scenario in the description of the
    transport, a request [{method: ...}] and a response [{result: ...}]; the
    JSON functions handle objects with a single string member (no escape
    sequences); buffers hold ASCII text; any non-empty string is a URL. *)

Module Demo.

Inductive Message : Type :=
| Request (method : string)
| Response (result : string).

(** An object with one member: its key and its string value. *)
Definition Value : Type := (string * string)%type.

Definition quote : ascii := ascii_of_nat 34.

Definition quoted (s : string) : string :=
  String quote (s ++ String quote EmptyString).

Definition stringify (m : Message) : string :=
  match m with
  | Request method => "{" ++ quoted "method" ++ ":" ++ quoted method ++ "}"
  | Response result => "{" ++ quoted "result" ++ ":" ++ quoted result ++ "}"
  end.

(** The text before the first quote character and the text after it. *)
Fixpoint until_quote (s : string) : option (string * string) :=
  match s with
  | EmptyString => None
  | String c s' =>
      if Ascii.eqb c quote then Some (EmptyString, s')
      else
        match until_quote s' with
        | Some (before, after) => Some (String c before, after)
        | None => None
        end
  end.

(** [s] without its first character, which has to be [c]. *)
Definition expect (c : ascii) (s : string) : option string :=
  match s with
  | String c' s' => if Ascii.eqb c' c then Some s' else None
  | EmptyString => None
  end.

Definition syntax_error : Exn := Foreign true "SyntaxError: Unexpected token".

Definition parse_member (s : string) : option Value :=
  match expect "{" s with
  | None => None
  | Some s1 =>
  match expect quote s1 with
  | None => None
  | Some s2 =>
  match until_quote s2 with
  | None => None
  | Some (key, s3) =>
  match expect ":" s3 with
  | None => None
  | Some s4 =>
  match expect quote s4 with
  | None => None
  | Some s5 =>
  match until_quote s5 with
  | None => None
  | Some (value, s6) =>
      if String.eqb s6 "}" then Some (key, value) else None
  end end end end end end.

Definition parse (s : string) : Exn + Value :=
  match parse_member s with
  | Some v => inr v
  | None => inl syntax_error
  end.

Definition schema_error : Exn := Foreign true "ZodError: Invalid input".

Definition schema_parse (v : Value) : Exn + Message :=
  let '(key, value) := v in
  if String.eqb key "method" then inr (Request value)
  else if String.eqb key "result" then inr (Response value)
  else inl schema_error.

Fixpoint text_of_bytes (bytes : list byte) : string :=
  match bytes with
  | [] => EmptyString
  | b :: bytes' => String (ascii_of_byte b) (text_of_bytes bytes')
  end.

Definition invalid_url : Exn := Foreign true "TypeError: Invalid URL".

Definition parse_url (s : string) : Exn + string :=
  match s with
  | EmptyString => inl invalid_url
  | _ => inr s
  end.

#[local] Instance platform : Platform := {|
  JSONRPCMessage := Message;
  JSValue := Value;
  URL := string;
  JSON_stringify := stringify;
  JSON_parse := parse;
  JSONRPCMessageSchema_parse := schema_parse;
  Buffer_toString_utf8 := text_of_bytes;
  new_URL := parse_url;
  href := fun u => u
|}.

(** The transport that the constructor builds for [http://localhost:8080]. *)
Definition unstarted : WebSocketMCPTransport :=
  {| socket := None; url := "ws://localhost:8080"; connected := false;
     abortController := {| aborted := false |}; headers := None;
     onclose := None; onerror := None; onmessage := None |}.

(** The same transport once the consumer has registered its callbacks. *)
Definition fresh : WebSocketMCPTransport :=
  {| socket := None; url := "ws://localhost:8080"; connected := false;
     abortController := {| aborted := false |}; headers := None;
     onclose := Some (fun _ => CbReturns);
     onerror := Some (fun _ => CbReturns);
     onmessage := Some (fun _ => CbReturns) |}.

(** The same transport after a successful [start] on socket 1. *)
Definition live : WebSocketMCPTransport :=
  set_connected true (set_socket (Some 1) fresh).

(** A connected transport whose consumer throws from its close callback. *)
Definition tantrum : Exn := Foreign true "Error: thrown by the consumer".

Definition fussy : WebSocketMCPTransport :=
  {| socket := Some 1; url := "ws://localhost:8080"; connected := true;
     abortController := {| aborted := false |}; headers := None;
     onclose := Some (fun _ => CbThrows tantrum);
     onerror := Some (fun _ => CbReturns);
     onmessage := Some (fun _ => CbReturns) |}.

(** A connected transport whose consumer throws from its message callback. *)
Definition touchy : WebSocketMCPTransport :=
  {| socket := Some 1; url := "ws://localhost:8080"; connected := true;
     abortController := {| aborted := false |}; headers := None;
     onclose := Some (fun _ => CbReturns);
     onerror := Some (fun _ => CbReturns);
     onmessage := Some (fun _ => CbThrows tantrum) |}.

Definition refused : Exn := Foreign true "Error: connect ECONNREFUSED".

Definition broken_pipe : Exn := Foreign true "Error: write EPIPE".

Definition ping : Message := Request "ping".

Definition pong : Message := Response "pong".

(** A connect attempt on socket [s] that ends in an error event. *)
Definition error_event (s : Socket) : ConnectOutcome := SocketErrors s refused.

Definition good_write : SendAttempt := {| ready := OPEN; write := WriteSucceeds |}.

Definition bad_write : SendAttempt :=
  {| ready := OPEN; write := WriteFails broken_pipe |}.

(** The socket has left the open state when the attempt looks at it. *)
Definition too_late : SendAttempt := {| ready := CLOSING; write := WriteSucceeds |}.

Definition open_socket : CloseEnv :=
  {| close_readyState := OPEN; close_throws := None |}.

Definition closed_socket : CloseEnv :=
  {| close_readyState := CLOSED; close_throws := None |}.

End Demo.

(** ** The codec

    Modelled from the spec: the codec of the transport.  The source
    serialises a message with [JSON.stringify] and decodes a payload with
    [JSON.parse] followed by [JSONRPCMessageSchema.parse]; the JSON functions
    belong to the runtime and the schema ([./json-rpc-message]) is not among
    the sources.  The description takes the encoding as a pure and total
    serialisation, the decoding as parsing the protocol's structured format
    and validating against the schema, and the schema as an opaque validating
    parser.  Here the structured format is JSON text over the values below,
    texts are strings of UTF-8 bytes, numbers are the integers, and the
    schema is any predicate on values. *)

Module Json.

(** The values that JSON text can carry. *)
Inductive JSON : Type :=
| JNull
| JBool (b : bool)
| JNumber (z : Z)
| JString (s : string)
| JArray (elements : list JSON)
| JObject (members : list (string * JSON)).

Definition quote : ascii := "034"%char.
Definition backslash : ascii := "\"%char.

(** *** JSON.stringify *)

Definition hex_digit (n : nat) : ascii :=
  match n with
  | 0 => "0" | 1 => "1" | 2 => "2" | 3 => "3" | 4 => "4" | 5 => "5" | 6 => "6"
  | 7 => "7" | 8 => "8" | 9 => "9" | 10 => "a" | 11 => "b" | 12 => "c"
  | 13 => "d" | 14 => "e" | _ => "f"
  end%char.

(** One character of a string, as it appears between the quotes. *)
Definition escape_char (c : ascii) : string :=
  let n := nat_of_ascii c in
  if Ascii.eqb c quote then String backslash (String quote EmptyString)
  else if Ascii.eqb c backslash then String backslash (String backslash EmptyString)
  else if n =? 8 then "\b"
  else if n =? 9 then "\t"
  else if n =? 10 then "\n"
  else if n =? 12 then "\f"
  else if n =? 13 then "\r"
  else if n <? 32 then
    ("\u00" ++
     String (hex_digit (n / 16)) (String (hex_digit (n mod 16)) EmptyString))%string
  else String c EmptyString.

Fixpoint escape (s : string) : string :=
  match s with
  | EmptyString => EmptyString
  | String c s' => (escape_char c ++ escape s')%string
  end.

Definition quoted (s : string) : string :=
  String quote (escape s ++ String quote EmptyString)%string.

Definition digits (n : N) : string := DecimalString.NilEmpty.string_of_uint (N.to_uint n).

Definition number (z : Z) : string :=
  match z with
  | Zneg p => String "-" (digits (Npos p))
  | _ => digits (Z.to_N z)
  end.

(** Modelled from the spec: [JSON.stringify], which writes a value without
    any space. *)
Fixpoint stringify (j : JSON) : string :=
  (match j with
  | JNull => "null"
  | JBool true => "true"
  | JBool false => "false"
  | JNumber z => number z
  | JString s => quoted s
  | JArray elements =>
      "[" ++
      match elements with
      | [] => EmptyString
      | v :: more =>
          stringify v ++
          (fix rest (l : list JSON) : string :=
             match l with
             | [] => EmptyString
             | v' :: l' => "," ++ stringify v' ++ rest l'
             end) more
      end ++ "]"
  | JObject members =>
      "{" ++
      match members with
      | [] => EmptyString
      | (k, v) :: more =>
          quoted k ++ ":" ++ stringify v ++
          (fix rest (l : list (string * JSON)) : string :=
             match l with
             | [] => EmptyString
             | (k', v') :: l' => "," ++ quoted k' ++ ":" ++ stringify v' ++ rest l'
             end) more
      end ++ "}"
  end)%string.

(** *** JSON.parse *)

Definition is_space (c : ascii) : bool :=
  let n := nat_of_ascii c in
  (n =? 32) || (n =? 9) || (n =? 10) || (n =? 13).

Definition is_digit (c : ascii) : bool :=
  let n := nat_of_ascii c in (48 <=? n) && (n <=? 57).

Fixpoint skip_space (s : string) : string :=
  match s with
  | String c s' => if is_space c then skip_space s' else s
  | EmptyString => s
  end.

(** The longest prefix of digits and what follows it. *)
Fixpoint read_digits (s : string) : string * string :=
  match s with
  | String c s' =>
      if is_digit c
      then let '(ds, rest) := read_digits s' in (String c ds, rest)
      else (EmptyString, s)
  | EmptyString => (EmptyString, EmptyString)
  end.

(** A digit string without a superfluous leading zero, as a number. *)
Definition natural (ds : string) : option N :=
  match ds with
  | EmptyString => None
  | String "0" (String _ _) => None
  | _ =>
      match DecimalString.NilEmpty.uint_of_string ds with
      | Some d => Some (N.of_uint d)
      | None => None
      end
  end.

(** A number may not go on with a fraction or an exponent: only the
    integers are covered. *)
Definition ends_number (rest : string) : bool :=
  match rest with
  | String c _ =>
      negb (Ascii.eqb c "." || Ascii.eqb c "e" || Ascii.eqb c "E")
  | EmptyString => true
  end.

Definition read_number (s : string) : option (Z * string) :=
  match s with
  | String "-" s' =>
      let '(ds, rest) := read_digits s' in
      match natural ds with
      | Some n => if ends_number rest then Some (Z.opp (Z.of_N n), rest) else None
      | None => None
      end
  | _ =>
      let '(ds, rest) := read_digits s in
      match natural ds with
      | Some n => if ends_number rest then Some (Z.of_N n, rest) else None
      | None => None
      end
  end.

Definition hex_value (c : ascii) : option nat :=
  let n := nat_of_ascii c in
  if (48 <=? n) && (n <=? 57) then Some (n - 48)
  else if (97 <=? n) && (n <=? 102) then Some (n - 87)
  else if (65 <=? n) && (n <=? 70) then Some (n - 55)
  else None.

(** The UTF-8 bytes of a code unit given by a [\u] escape. *)
Definition utf8 (n : nat) : string :=
  if n <? 128 then String (ascii_of_nat n) EmptyString
  else if n <? 2048 then
    String (ascii_of_nat (192 + n / 64))
      (String (ascii_of_nat (128 + n mod 64)) EmptyString)
  else
    String (ascii_of_nat (224 + n / 4096))
      (String (ascii_of_nat (128 + (n / 64) mod 64))
         (String (ascii_of_nat (128 + n mod 64)) EmptyString)).

(** Where the reader of a string literal stands. *)
Inductive Reading : Type :=
| Plain
| Escaped
| Unicode (seen : nat) (value : nat).

(** The characters of a string literal after its opening quote, up to the
    closing quote, and what follows it. *)
Fixpoint read_string (st : Reading) (s : string) : option (string * string) :=
  match s with
  | EmptyString => None
  | String c s' =>
      match st with
      | Plain =>
          if Ascii.eqb c quote then Some (EmptyString, s')
          else if Ascii.eqb c backslash then read_string Escaped s'
          else if nat_of_ascii c <? 32 then None
          else
            match read_string Plain s' with
            | Some (text, rest) => Some (String c text, rest)
            | None => None
            end
      | Escaped =>
          let plain (d : ascii) :=
            match read_string Plain s' with
            | Some (text, rest) => Some (String d text, rest)
            | None => None
            end in
          if Ascii.eqb c quote then plain quote
          else if Ascii.eqb c backslash then plain backslash
          else if Ascii.eqb c "/" then plain "/"%char
          else if Ascii.eqb c "b" then plain (ascii_of_nat 8)
          else if Ascii.eqb c "f" then plain (ascii_of_nat 12)
          else if Ascii.eqb c "n" then plain (ascii_of_nat 10)
          else if Ascii.eqb c "r" then plain (ascii_of_nat 13)
          else if Ascii.eqb c "t" then plain (ascii_of_nat 9)
          else if Ascii.eqb c "u" then read_string (Unicode 0 0) s'
          else None
      | Unicode seen value =>
          match hex_value c with
          | None => None
          | Some h =>
              if seen =? 3 then
                match read_string Plain s' with
                | Some (text, rest) =>
                    Some ((utf8 (16 * value + h) ++ text)%string, rest)
                | None => None
                end
              else read_string (Unicode (S seen) (16 * value + h)) s'
          end
      end
  end.

(** [s] without the prefix [word], if it begins with it. *)
Fixpoint after_word (word s : string) : option string :=
  match word, s with
  | EmptyString, _ => Some s
  | String a word', String c s' => if Ascii.eqb a c then after_word word' s' else None
  | String _ _, EmptyString => None
  end.

(** Assigning a property: a key that is present keeps its place and takes
    the new value. *)
Fixpoint set_member (k : string) (v : JSON) (members : list (string * JSON)) :
  list (string * JSON) :=
  match members with
  | [] => [(k, v)]
  | (k', v') :: members' =>
      if String.eqb k' k then (k', v) :: members'
      else (k', v') :: set_member k v members'
  end.

(** [s] without its first character, if that character is [c]. *)
Definition begins (c : ascii) (s : string) : option string :=
  match s with
  | String c' r => if Ascii.eqb c' c then Some r else None
  | EmptyString => None
  end.

Fixpoint parse_value (fuel : nat) (s : string) : option (JSON * string) :=
  match fuel with
  | 0 => None
  | S fuel' =>
      match skip_space s with
      | EmptyString => None
      | String c s' =>
          if Ascii.eqb c "n" then
            match after_word "ull" s' with Some r => Some (JNull, r) | None => None end
          else if Ascii.eqb c "t" then
            match after_word "rue" s' with
            | Some r => Some (JBool true, r) | None => None end
          else if Ascii.eqb c "f" then
            match after_word "alse" s' with
            | Some r => Some (JBool false, r) | None => None end
          else if Ascii.eqb c quote then
            match read_string Plain s' with
            | Some (text, r) => Some (JString text, r) | None => None end
          else if Ascii.eqb c "[" then
            match begins "]" (skip_space s') with
            | Some r => Some (JArray [], r)
            | None =>
                match parse_value fuel' s' with
                | Some (v, r) =>
                    match parse_elements fuel' r with
                    | Some (vs, r') => Some (JArray (v :: vs), r')
                    | None => None
                    end
                | None => None
                end
            end
          else if Ascii.eqb c "{" then
            match begins "}" (skip_space s') with
            | Some r => Some (JObject [], r)
            | None =>
                match parse_member fuel' s' with
                | Some (k, v, r) =>
                    match parse_members fuel' [(k, v)] r with
                    | Some (ms, r') => Some (JObject ms, r')
                    | None => None
                    end
                | None => None
                end
            end
          else
            match read_number (String c s') with
            | Some (z, r) => Some (JNumber z, r)
            | None => None
            end
      end
  end

with parse_elements (fuel : nat) (s : string) : option (list JSON * string) :=
  match fuel with
  | 0 => None
  | S fuel' =>
      match begins "]" (skip_space s) with
      | Some r => Some ([], r)
      | None =>
          match begins "," (skip_space s) with
          | Some r =>
              match parse_value fuel' r with
              | Some (v, r1) =>
                  match parse_elements fuel' r1 with
                  | Some (vs, r2) => Some (v :: vs, r2)
                  | None => None
                  end
              | None => None
              end
          | None => None
          end
      end
  end

with parse_member (fuel : nat) (s : string) : option (string * JSON * string) :=
  match fuel with
  | 0 => None
  | S fuel' =>
      match begins quote (skip_space s) with
      | Some s1 =>
          match read_string Plain s1 with
          | Some (k, s2) =>
              match begins ":" (skip_space s2) with
              | Some s3 =>
                  match parse_value fuel' s3 with
                  | Some (v, r) => Some (k, v, r)
                  | None => None
                  end
              | None => None
              end
          | None => None
          end
      | None => None
      end
  end

with parse_members (fuel : nat) (acc : list (string * JSON)) (s : string) :
  option (list (string * JSON) * string) :=
  match fuel with
  | 0 => None
  | S fuel' =>
      match begins "}" (skip_space s) with
      | Some r => Some (acc, r)
      | None =>
          match begins "," (skip_space s) with
          | Some r =>
              match parse_member fuel' r with
              | Some (k, v, r1) => parse_members fuel' (set_member k v acc) r1
              | None => None
              end
          | None => None
          end
      end
  end.

(** The text after the first element of an array, and after the first
    member of an object, as [stringify] writes them. *)
Fixpoint elements_rest (l : list JSON) : string :=
  match l with
  | [] => EmptyString
  | v :: l' => ("," ++ stringify v ++ elements_rest l')%string
  end.

Fixpoint members_rest (l : list (string * JSON)) : string :=
  match l with
  | [] => EmptyString
  | (k, v) :: l' => ("," ++ quoted k ++ ":" ++ stringify v ++ members_rest l')%string
  end.

(** No key occurs twice. *)
Fixpoint distinct (keys : list string) : bool :=
  match keys with
  | [] => true
  | k :: keys' => negb (existsb (String.eqb k) keys') && distinct keys'
  end.

(** The integers that a JavaScript number holds exactly and writes in plain
    decimal notation. *)
Definition safe_integer (z : Z) : bool :=
  (Z.ltb (- 9007199254740992) z && Z.ltb z 9007199254740992)%Z.

(** A key that is not written with digits only.  JavaScript lists the
    properties whose key is an array index before the others, whatever the
    order in which they were assigned; objects with such keys are left
    out. *)
Fixpoint all_digits (s : string) : bool :=
  match s with
  | EmptyString => true
  | String c s' => is_digit c && all_digits s'
  end.

Definition plain_key (k : string) : bool :=
  match k with
  | EmptyString => true
  | _ => negb (all_digits k)
  end.

(** The values of this type that stand for a JavaScript value made of
    [null], booleans, safe integers, strings, arrays and objects, with the
    members of an object in the order of its properties: the keys of an
    object are distinct and plain. *)
Fixpoint representable (j : JSON) : bool :=
  match j with
  | JNumber z => safe_integer z
  | JArray elements => forallb representable elements
  | JObject members =>
      distinct (map fst members) &&
      forallb plain_key (map fst members) &&
      forallb (fun kv => representable (snd kv)) members
  | _ => true
  end.

(** The first character of a number is a digit or the minus sign. *)
Definition begins_number (c : ascii) : bool := is_digit c || Ascii.eqb c "-".

(** A text before which a number can end. *)
Definition stops (rest : string) : bool :=
  match rest with
  | String c _ => negb (is_digit c) && ends_number rest
  | EmptyString => true
  end.

(** What the round trip asks of a value: its text, followed by anything
    before which a number can end, parses back to the value and leaves what
    follows. *)
Definition parses_back (j : JSON) : Prop :=
  representable j = true ->
  forall fuel rest,
    String.length (stringify j) <= fuel ->
    stops rest = true ->
    parse_value fuel (stringify j ++ rest) = Some (j, rest).

Definition syntax_error : Exn := Foreign true "SyntaxError: Unexpected token in JSON".

(** Modelled from the spec: [JSON.parse], which returns the value that a
    text denotes and throws a syntax error on a text that is not one JSON
    value, spaces apart.  A number with a fraction or an exponent is refused
    too: such numbers are not among the values above. *)
Definition parse (s : string) : Exn + JSON :=
  match parse_value (S (String.length s)) s with
  | Some (j, rest) =>
      match skip_space rest with
      | EmptyString => inr j
      | _ => inl syntax_error
      end
  | None => inl syntax_error
  end.

Definition schema_error : Exn := Foreign true "ZodError: Invalid input".

(** Modelled from the spec: a binary payload is read as UTF-8 text.  A text
    being its UTF-8 bytes, this is the string with the bytes of the
    buffer. *)
Definition text_of_buffer (bytes : list byte) : string :=
  string_of_list_byte bytes.

(** Modelled from the spec: the platform with this codec.  The schema is an
    opaque validating parser: any function that returns a message for the
    values it accepts and throws on the others.  As for the demonstration
    platform, any non-empty string is a URL. *)
Definition platform (schema : JSON -> Exn + JSON) : Platform := {|
  JSONRPCMessage := JSON;
  JSValue := JSON;
  URL := string;
  JSON_stringify := stringify;
  JSON_parse := parse;
  JSONRPCMessageSchema_parse := schema;
  Buffer_toString_utf8 := text_of_buffer;
  new_URL := Demo.parse_url;
  href := fun u => u
|}.

(** A schema for a run: it accepts, as they are, the objects with a
    [method] or a [result] member. *)
Definition request_or_response (j : JSON) : Exn + JSON :=
  match j with
  | JObject members =>
      if existsb (fun kv => String.eqb (fst kv) "method" || String.eqb (fst kv) "result")
           members
      then inr j
      else inl schema_error
  | _ => inl schema_error
  end.

Definition ping : JSON :=
  JObject [("method", JString "ping"); ("id", JNumber 1);
           ("params", JArray [JNull; JBool true; JNumber (-12); JString "a\b"])].

(** A transport that is connected on socket 1, over this codec. *)
Definition live : @WebSocketMCPTransport (platform request_or_response) :=
  @Build_WebSocketMCPTransport (platform request_or_response)
    (Some 1) "ws://localhost:8080"%string true {| aborted := false |} None
    (Some (fun _ => CbReturns)) (Some (fun _ => CbReturns))
    (Some (fun _ => CbReturns)).

End Json.
(** ** More readings of a trace *)

Section MoreObservations.

Context {P : Platform}.

(** The timer delays of a run, in order. *)
Fixpoint waits (tr : list Event) : list nat :=
  match tr with
  | [] => []
  | Delay ms :: tr' => ms :: waits tr'
  | _ :: tr' => waits tr'
  end.

(** For every socket constructed, whether the abort signal passed to it
    had already been raised. *)
Fixpoint signals (tr : list Event) : list bool :=
  match tr with
  | [] => []
  | NewWebSocket _ _ signal_aborted :: tr' => signal_aborted :: signals tr'
  | _ :: tr' => signals tr'
  end.

(** The sockets on which [close()] was called, in order. *)
Fixpoint socket_closes (tr : list Event) : list Socket :=
  match tr with
  | [] => []
  | SocketClose s :: tr' => s :: socket_closes tr'
  | _ :: tr' => socket_closes tr'
  end.

(** The exceptions that left an event handler. *)
Fixpoint uncaught (tr : list Event) : list Exn :=
  match tr with
  | [] => []
  | Uncaught e :: tr' => e :: uncaught tr'
  | _ :: tr' => uncaught tr'
  end.

(** A transport that says it is connected holds a socket. *)
Definition holds_socket (t : WebSocketMCPTransport) : bool :=
  match socket t with
  | Some _ => true
  | None => false
  end.

Definition coherent (t : WebSocketMCPTransport) : bool :=
  implb (connected t) (holds_socket t).

(** The parse errors that the events which do not decode give rise to, in
    arrival order. *)
Fixpoint undecoded (events : list MessageData) : list Exn :=
  match events with
  | [] => []
  | data :: later =>
      match decode data with
      | inr _ => undecoded later
      | inl cause => parse_error cause :: undecoded later
      end
  end.

(** Whether an address begins with the letters [http], in any case. *)
Definition begins_with_http (address : string) : bool :=
  match address with
  | String c1 (String c2 (String c3 (String c4 _))) =>
      is_letter "h" "H" c1 && is_letter "t" "T" c2 &&
      is_letter "t" "T" c3 && is_letter "p" "P" c4
  | _ => false
  end.

(** What [send] does once three attempts have failed with [e] as the last
    error: the error callback, if any, is called with [e]; [send] throws [e]
    unless the callback threw first. *)
Definition final_throw (cb : option (Exn -> CallbackResult)) (e : Exn) : Exn :=
  match cb with
  | None => e
  | Some f =>
      match f e with
      | CbReturns => e
      | CbThrows x => x
      end
  end.

Definition final_report (cb : option (Exn -> CallbackResult)) (e : Exn) :
  list Event :=
  match cb with
  | None => []
  | Some _ => [CallOnError e]
  end.

End MoreObservations.

(** ** The example script: main()

    The client library ([ai/core/tool/mcp/mcp-client]) is outside the file:
    what each awaited call of the script does, return or throw, is given by a
    [Client] record.  The object returned by [client.tools()] is represented
    by the list of its keys. *)

Module Example.

(** The [transport] member of the object passed to [createMCPClient]. *)
Record TransportConfig : Type := {
  type : string;
  address : string;
  authorization : Headers
}.

Definition transport : TransportConfig :=
  {| type := "ws";
     address := "ws://localhost:8080";
     authorization := [("Authorization", "Bearer your-token")] |}.

(** The two arguments of [tools.example.execute]. *)
Record ExecuteCall : Type := {
  param1 : string;
  param2 : string;
  toolCallId : string;
  messages : list string;
  abortSignal : option unit
}.

Definition example_call : ExecuteCall :=
  {| param1 := "hello"; param2 := "world";
     toolCallId := "example-call-1"; messages := []; abortSignal := None |}.

Record Client : Type := {
  created : Exn + unit;
  listed : Exn + list string;
  executed : Exn + string;
  closed_down : Exn + unit
}.

Inductive Output : Type :=
| ConsoleLog (text : string)
| ConsoleLogKeys (text : string) (keys : list string)
| ConsoleLogResult (text : string) (result : string)
| ConsoleError (text : string) (error : Exn)
| CreateMCPClient (config : TransportConfig)
| ClientTools
| ToolExecute (tool : string) (call : ExecuteCall)
| ClientClose.

(** A computation of the script: how it ends and what it did. *)
Definition Script (A : Type) : Type := (Completion A * list Output)%type.

Definition ret {A} (a : A) : Script A := (Returned a, []).

Definition bind {A B} (c : Script A) (k : A -> Script B) : Script B :=
  match c with
  | (Returned a, out1) =>
      match k a with
      | (r, out2) => (r, out1 ++ out2)
      end
  | (Threw e, out1) => (Threw e, out1)
  | (Pending, out1) => (Pending, out1)
  end.

Definition try_catch {A} (body : Script A) (handler : Exn -> Script A) : Script A :=
  match body with
  | (Threw e, out1) =>
      match handler e with
      | (r, out2) => (r, out1 ++ out2)
      end
  | other => other
  end.

Definition output (o : Output) : Script unit := (Returned tt, [o]).

(** [await] of a call to the client library. *)
Definition await {A} (request : Output) (outcome : Exn + A) : Script A :=
  match outcome with
  | inl e => (Threw e, [request])
  | inr a => (Returned a, [request])
  end.

Declare Scope script_scope.
Delimit Scope script_scope with script.
Notation "x <- c ;; k" := (bind c (fun x => k))
  (at level 61, c at next level, right associativity) : script_scope.
Notation "c ;; k" := (bind c (fun _ => k))
  (at level 61, right associativity) : script_scope.

(** 'example' in tools *)
Definition has_example (keys : list string) : bool :=
  existsb (String.eqb "example") keys.

Definition main (c : Client) : Script unit :=
  (try_catch
    (output (ConsoleLog "正在连接到 MCP WebSocket 服务器...") ;;
     await (CreateMCPClient transport) (created c) ;;
     output (ConsoleLog "已成功连接到 MCP WebSocket 服务器") ;;
     tools <- await ClientTools (listed c) ;;
     output (ConsoleLogKeys "可用工具：" tools) ;;
     (if has_example tools then
        result <- await (ToolExecute "example" example_call) (executed c) ;;
        output (ConsoleLogResult "工具执行结果：" result)
      else ret tt) ;;
     await ClientClose (closed_down c) ;;
     output (ConsoleLog "已关闭 MCP 客户端连接"))
    (fun error => output (ConsoleError "发生错误：" error)))%script.

(** Readings of the output. *)
Fixpoint closes (out : list Output) : nat :=
  match out with
  | [] => 0
  | ClientClose :: out' => S (closes out')
  | _ :: out' => closes out'
  end.

Fixpoint executions (out : list Output) : list (string * ExecuteCall) :=
  match out with
  | [] => []
  | ToolExecute tool call :: out' => (tool, call) :: executions out'
  | _ :: out' => executions out'
  end.

Fixpoint errors_logged (out : list Output) : list Exn :=
  match out with
  | [] => []
  | ConsoleError _ e :: out' => e :: errors_logged out'
  | _ :: out' => errors_logged out'
  end.

(** The exception of the first call that throws, in the order in which
    the script makes its calls. *)
Definition first_failure (c : Client) : option Exn :=
  match created c with
  | inl e => Some e
  | inr _ =>
      match listed c with
      | inl e => Some e
      | inr tools =>
          match (if has_example tools then executed c else inr EmptyString) with
          | inl e => Some e
          | inr _ =>
              match closed_down c with
              | inl e => Some e
              | inr _ => None
              end
          end
      end
  end.

(** The calls that precede [client.close()] all return. *)
Definition reaches_close (c : Client) : bool :=
  match created c, listed c with
  | inr _, inr tools =>
      if has_example tools
      then match executed c with inr _ => true | inl _ => false end
      else true
  | _, _ => false
  end.

Definition tool_failure : Exn := Foreign true "Error: the tool failed".

(** A client for which every call returns, and one whose example tool
    throws. *)
Definition healthy : Client :=
  {| created := inr tt; listed := inr ["search"; "example"]%string;
     executed := inr "done"%string; closed_down := inr tt |}.

Definition failing_tool : Client :=
  {| created := inr tt; listed := inr ["search"; "example"]%string;
     executed := inl tool_failure; closed_down := inr tt |}.

End Example.

(** ** More transports to run the model on *)

Module Cases.

#[local] Existing Instance Demo.platform.

(** A connected transport whose consumer throws from its error callback. *)
Definition grumpy : WebSocketMCPTransport :=
  {| socket := Some 1; url := "ws://localhost:8080"; connected := true;
     abortController := {| aborted := false |}; headers := None;
     onclose := Some (fun _ => CbReturns);
     onerror := Some (fun _ => CbThrows Demo.tantrum);
     onmessage := Some (fun _ => CbReturns) |}.

(** The same consumer before [start]. *)
Definition grumpy_fresh : WebSocketMCPTransport :=
  {| socket := None; url := "ws://localhost:8080"; connected := false;
     abortController := {| aborted := false |}; headers := None;
     onclose := Some (fun _ => CbReturns);
     onerror := Some (fun _ => CbThrows Demo.tantrum);
     onmessage := Some (fun _ => CbReturns) |}.

(** A connected transport with no error callback. *)
Definition mute : WebSocketMCPTransport :=
  {| socket := Some 1; url := "ws://localhost:8080"; connected := true;
     abortController := {| aborted := false |}; headers := None;
     onclose := None; onerror := None; onmessage := None |}.

(** The bytes of the frame for [pong]. *)
Definition pong_bytes : list byte :=
  list_byte_of_string (Demo.stringify Demo.pong).

End Cases.


(** Closing goals that are conjunctions of bounds and of [Forall] facts
    over short lists. *)
Ltac bounds := repeat split; first [lia | repeat constructor].

(** * Properties *)

Section Properties.

Context {P : Platform}.

(** ** Traces *)

Lemma error_reports_app (a b : list Event) :
  error_reports (a ++ b) = error_reports a ++ error_reports b.
Proof.
  induction a as [|ev a IH]; [reflexivity|].
  destruct ev; simpl; rewrite IH; reflexivity.
Qed.

Lemma connect_attempts_app (a b : list Event) :
  connect_attempts (a ++ b) = connect_attempts a + connect_attempts b.
Proof.
  induction a as [|ev a IH]; [reflexivity|].
  destruct ev; simpl; rewrite IH; reflexivity.
Qed.

Lemma schedule_app (a b : list Event) :
  schedule (a ++ b) = schedule a ++ schedule b.
Proof.
  induction a as [|ev a IH]; [reflexivity|].
  destruct ev; simpl; rewrite IH; reflexivity.
Qed.

Lemma close_calls_app (a b : list Event) :
  close_calls (a ++ b) = close_calls a + close_calls b.
Proof.
  induction a as [|ev a IH]; [reflexivity|].
  destruct ev; simpl; rewrite IH; reflexivity.
Qed.

Lemma deliveries_app (a b : list Event) :
  deliveries (a ++ b) = deliveries a ++ deliveries b.
Proof.
  induction a as [|ev a IH]; [reflexivity|].
  destruct ev; simpl; rewrite IH; reflexivity.
Qed.

Lemma socket_writes_app (a b : list Event) :
  socket_writes (a ++ b) = socket_writes a ++ socket_writes b.
Proof.
  induction a as [|ev a IH]; [reflexivity|].
  destruct ev; simpl; rewrite IH; reflexivity.
Qed.

(** ** Connect attempts *)

Lemma onerror_after_attempt (o : ConnectOutcome) (t : WebSocketMCPTransport) :
  onerror (after_attempt o t) = onerror t.
Proof. destruct o; reflexivity. Qed.

Lemma connected_after_attempt (o : ConnectOutcome) (t : WebSocketMCPTransport) :
  connected (after_attempt o t) = connected t.
Proof. destruct o; reflexivity. Qed.

(** A failing attempt is exactly a rejected promise of [_connect]. *)
Lemma _connect_rejected (o : ConnectOutcome) (t : WebSocketMCPTransport) (e : Exn) :
  rejection (onerror t) o = Some e ->
  _connect o t = (Threw e, after_attempt o t, attempt_events t o).
Proof.
  unfold _connect, attempt_events, construction, bind, this, emit, modify, throw.
  destruct o as [x|s|s cause]; simpl; intros H.
  - injection H as <-. destruct (onerror t); reflexivity.
  - discriminate.
  - unfold socket_onerror, call_onerror, bind, this, emit, ret. simpl.
    destruct (onerror t) as [cb|]; simpl.
    + destruct (cb (connection_error cause)); [|discriminate].
      injection H as <-. reflexivity.
    + injection H as <-. reflexivity.
Qed.

Lemma _connect_rejected_only (o : ConnectOutcome) (t t' : WebSocketMCPTransport)
  (e : Exn) (tr : list Event) :
  _connect o t = (Threw e, t', tr) ->
  rejection (onerror t) o = Some e.
Proof.
  unfold _connect, bind, this, emit, modify, throw.
  destruct o as [x|s|s cause]; simpl.
  - intros H. injection H as <- _ _. reflexivity.
  - discriminate.
  - unfold socket_onerror, call_onerror, bind, this, emit, ret. simpl.
    destruct (onerror t) as [cb|]; simpl.
    + destruct (cb (connection_error cause)); simpl.
      * intros H. injection H as <- _ _. reflexivity.
      * discriminate.
    + intros H. injection H as <- _ _. reflexivity.
Qed.

Lemma _connect_opened (s : Socket) (t : WebSocketMCPTransport) :
  _connect (SocketOpens s) t = (Returned tt, set_socket (Some s) t, [construction t]).
Proof. reflexivity. Qed.

(** The loop of [start], unfolded once. *)
Lemma start_loop_cons (o : ConnectOutcome) (script : list ConnectOutcome) (n : nat) :
  start_loop (o :: script) n =
  if n <? MAX_RETRIES then
    try_catch
      (_connect o ;; modify (set_connected true))
      (fun error =>
         if S n =? MAX_RETRIES then throw error
         else delay RETRY_DELAY_MS ;; start_loop script (S n))
  else ret tt.
Proof. reflexivity. Qed.

(** One failing iteration of the loop of [start]. *)
Lemma start_loop_retry (o : ConnectOutcome) (script : list ConnectOutcome)
  (n : nat) (t : WebSocketMCPTransport) (e : Exn) :
  rejection (onerror t) o = Some e ->
  S n < MAX_RETRIES ->
  start_loop (o :: script) n t =
  match start_loop script (S n) (after_attempt o t) with
  | (r, t', tr) => (r, t', attempt_events t o ++ Delay RETRY_DELAY_MS :: tr)
  end.
Proof.
  intros H Hn. rewrite start_loop_cons.
  assert (Hlt : (n <? MAX_RETRIES) = true) by (apply Nat.ltb_lt; lia).
  assert (Hne : (S n =? MAX_RETRIES) = false) by (apply Nat.eqb_neq; lia).
  rewrite Hlt, Hne. unfold try_catch, bind at 1.
  rewrite (_connect_rejected _ _ _ H).
  unfold bind, delay, emit.
  destruct (start_loop script (S n) (after_attempt o t)) as [[r t'] tr].
  reflexivity.
Qed.

(** The failing iteration that uses up the attempts. *)
Lemma start_loop_last (o : ConnectOutcome) (script : list ConnectOutcome)
  (n : nat) (t : WebSocketMCPTransport) (e : Exn) :
  rejection (onerror t) o = Some e ->
  S n = MAX_RETRIES ->
  start_loop (o :: script) n t = (Threw e, after_attempt o t, attempt_events t o).
Proof.
  intros H Hn. rewrite start_loop_cons.
  assert (Hlt : (n <? MAX_RETRIES) = true) by (apply Nat.ltb_lt; lia).
  assert (Hne : (S n =? MAX_RETRIES) = true) by (apply Nat.eqb_eq; lia).
  rewrite Hlt, Hne. unfold try_catch, bind.
  rewrite (_connect_rejected _ _ _ H).
  unfold throw. rewrite app_nil_r. reflexivity.
Qed.

(** The iteration whose attempt succeeds. *)
Lemma start_loop_open (s : Socket) (script : list ConnectOutcome)
  (n : nat) (t : WebSocketMCPTransport) :
  n < MAX_RETRIES ->
  start_loop (SocketOpens s :: script) n t =
  (Returned tt, set_connected true (set_socket (Some s) t), [construction t]).
Proof.
  intros Hn. rewrite start_loop_cons.
  assert (Hlt : (n <? MAX_RETRIES) = true) by (apply Nat.ltb_lt; lia).
  rewrite Hlt. reflexivity.
Qed.

(** Failing attempts while retries remain. *)
Lemma start_loop_retries (fails script : list ConnectOutcome) :
  forall (n : nat) (t : WebSocketMCPTransport),
  Forall (fun o => rejection (onerror t) o <> None) fails ->
  n + length fails < MAX_RETRIES ->
  start_loop (fails ++ script) n t =
  match start_loop script (n + length fails) (after_attempts fails t) with
  | (r, t', tr) => (r, t', failed_connects t fails ++ tr)
  end.
Proof.
  induction fails as [|o fails IH]; intros n t Hall Hn;
    cbn [app length after_attempts failed_connects].
  - rewrite Nat.add_0_r.
    destruct (start_loop script n t) as [[r t'] tr]. reflexivity.
  - inversion Hall as [|? ? Ho Hrest]; subst.
    destruct (rejection (onerror t) o) as [e|] eqn:He; [|congruence].
    cbn [length] in Hn.
    rewrite (start_loop_retry o (fails ++ script) n t e He) by lia.
    rewrite IH.
    + replace (S n + length fails) with (n + S (length fails)) by lia.
      destruct (start_loop script (n + S (length fails))
                  (after_attempts fails (after_attempt o t))) as [[r t'] tr].
      rewrite <- app_assoc. reflexivity.
    + rewrite onerror_after_attempt. exact Hrest.
    + lia.
Qed.

Lemma connect_attempts_attempt_events (t : WebSocketMCPTransport) (o : ConnectOutcome) :
  connect_attempts (attempt_events t o) = 1.
Proof.
  unfold attempt_events. simpl. destruct (onerror t); [|reflexivity].
  destruct o; reflexivity.
Qed.

Lemma schedule_attempt_events (t : WebSocketMCPTransport) (o : ConnectOutcome) :
  schedule (attempt_events t o) = [Attempt].
Proof.
  unfold attempt_events. simpl. destruct (onerror t); [|reflexivity].
  destruct o; reflexivity.
Qed.

Lemma error_reports_attempt_events (t : WebSocketMCPTransport) (o : ConnectOutcome)
  (cb : Exn -> CallbackResult) :
  onerror t = Some cb ->
  error_reports (attempt_events t o) = socket_error_of o.
Proof.
  unfold attempt_events. intros ->. simpl. destruct o; reflexivity.
Qed.

Lemma connect_attempts_failed_connects (l : list ConnectOutcome) :
  forall t, connect_attempts (failed_connects t l) = length l.
Proof.
  induction l as [|o l IH]; intros t; cbn [failed_connects length]; [reflexivity|].
  rewrite connect_attempts_app, connect_attempts_attempt_events.
  cbn [connect_attempts]. rewrite IH. reflexivity.
Qed.

Lemma schedule_failed_connects (l : list ConnectOutcome) (tail : list Event) :
  schedule tail = [Attempt] ->
  forall t, schedule (failed_connects t l ++ tail) = retried (length l).
Proof.
  intros Htail.
  induction l as [|o l IH]; intros t; cbn [failed_connects length retried app].
  - exact Htail.
  - rewrite <- app_assoc, schedule_app, schedule_attempt_events.
    cbn [app schedule]. rewrite IH. reflexivity.
Qed.

Lemma error_reports_failed_connects (l : list ConnectOutcome)
  (cb : Exn -> CallbackResult) :
  forall t, onerror t = Some cb ->
  error_reports (failed_connects t l) = flat_map socket_error_of l.
Proof.
  induction l as [|o l IH]; intros t Hcb; cbn [failed_connects flat_map];
    [reflexivity|].
  rewrite error_reports_app, (error_reports_attempt_events t o cb Hcb).
  cbn [error_reports]. rewrite IH; [reflexivity|].
  rewrite onerror_after_attempt. exact Hcb.
Qed.

(** C4. [send] on a transport that is not connected, or that has no socket,
    throws the [Not connected] error at once: the object is unchanged and the
    trace is empty, so no socket write and no retry delay took place.  A
    transport fresh from the constructor is such a transport. *)
Theorem send_refused_when_not_connected (message : JSONRPCMessage)
  (script : list SendAttempt) (t : WebSocketMCPTransport) :
  socket t = None \/ connected t = false ->
  send message script t = (Threw not_connected, t, []).
Proof.
  intros H. unfold send, bind, this.
  destruct (socket t) as [s|] eqn:Hs.
  - destruct H as [H|H]; [discriminate|]. rewrite H. reflexivity.
  - reflexivity.
Qed.

(** C1. When [start] runs on a transport that is not connected and each of
    the three connect attempts fails, [start] throws the error with which
    the third attempt was rejected; the run made exactly 3 connect attempts,
    with one delay of 1000 ms between consecutive attempts and none after
    the last. *)
Theorem start_fails_after_three_attempts (t : WebSocketMCPTransport)
  (o1 o2 o3 : ConnectOutcome) (rest : list ConnectOutcome) (e1 e2 e3 : Exn) :
  connected t = false ->
  rejection (onerror t) o1 = Some e1 ->
  rejection (onerror t) o2 = Some e2 ->
  rejection (onerror t) o3 = Some e3 ->
  exists t' tr,
    start (o1 :: o2 :: o3 :: rest) t = (Threw e3, t', tr) /\
    connect_attempts tr = 3 /\
    schedule tr = [Attempt; Wait 1000; Attempt; Wait 1000; Attempt].
Proof.
  intros Hc H1 H2 H3.
  unfold start, bind, this. rewrite Hc.
  rewrite (start_loop_retry o1 _ 0 t e1 H1) by (unfold MAX_RETRIES; lia).
  rewrite <- (onerror_after_attempt o1) in H2, H3.
  rewrite (start_loop_retry o2 _ 1 _ e2 H2) by (unfold MAX_RETRIES; lia).
  rewrite <- (onerror_after_attempt o2) in H3.
  rewrite (start_loop_last o3 _ 2 _ e3 H3) by reflexivity.
  do 2 eexists. split; [reflexivity|]. split.
  - cbn [app]. rewrite !connect_attempts_app, !connect_attempts_attempt_events.
    cbn [connect_attempts]. rewrite !connect_attempts_app, !connect_attempts_attempt_events.
    cbn [connect_attempts]. rewrite connect_attempts_attempt_events. reflexivity.
  - cbn [app]. rewrite schedule_app, schedule_attempt_events. cbn [schedule].
    rewrite schedule_app, schedule_attempt_events. cbn [schedule].
    rewrite schedule_attempt_events. reflexivity.
Qed.

(** C2. When the first [N] connect attempts fail, with [N < 3], and the next
    one opens, [start] returns with the transport connected on the socket
    that opened, after exactly [N + 1] connect attempts, each failed attempt
    being followed by a delay of 1000 ms before the next. *)
Theorem start_succeeds_within_three_attempts (t : WebSocketMCPTransport)
  (N : nat) (fails : list ConnectOutcome) (s : Socket) (rest : list ConnectOutcome) :
  connected t = false ->
  N < 3 ->
  length fails = N ->
  Forall (fun o => rejection (onerror t) o <> None) fails ->
  exists t' tr,
    start (fails ++ SocketOpens s :: rest) t = (Returned tt, t', tr) /\
    connected t' = true /\
    socket t' = Some s /\
    connect_attempts tr = N + 1 /\
    schedule tr = retried N.
Proof.
  intros Hc HN Hlen Hall. subst N.
  unfold start, bind, this. rewrite Hc.
  rewrite (start_loop_retries fails _ 0 t Hall) by (unfold MAX_RETRIES; lia).
  rewrite start_loop_open by (unfold MAX_RETRIES; lia).
  do 2 eexists. split; [reflexivity|].
  split; [reflexivity|]. split; [reflexivity|]. split.
  - cbn [app]. rewrite connect_attempts_app, connect_attempts_failed_connects.
    reflexivity.
  - cbn [app]. apply schedule_failed_connects. reflexivity.
Qed.

(** C5. With an error callback registered, a run of [start] calls it once
    for every failed attempt whose socket emitted an error event, non-final
    attempts included, each time with the connection error of that attempt;
    the retry loop adds no call of its own.  This holds when three attempts
    fail and when fewer fail before one opens. *)
Theorem start_reports_every_socket_error (t : WebSocketMCPTransport)
  (cb : Exn -> CallbackResult) (fails : list ConnectOutcome) :
  onerror t = Some cb ->
  connected t = false ->
  Forall (fun o => rejection (onerror t) o <> None) fails ->
  (length fails = 3 ->
   forall rest,
     error_reports (trace_of (start (fails ++ rest) t)) =
     flat_map socket_error_of fails) /\
  (length fails < 3 ->
   forall s rest,
     error_reports (trace_of (start (fails ++ SocketOpens s :: rest) t)) =
     flat_map socket_error_of fails).
Proof.
  intros Hcb Hc Hall. split.
  - intros Hlen rest.
    destruct fails as [|o1 [|o2 [|o3 [|o4 l]]]]; try discriminate.
    inversion Hall as [|? ? H1 Hall1]; subst.
    inversion Hall1 as [|? ? H2 Hall2]; subst.
    inversion Hall2 as [|? ? H3 _]; subst.
    destruct (rejection (onerror t) o1) as [e1|] eqn:E1; [|congruence].
    destruct (rejection (onerror t) o2) as [e2|] eqn:E2; [|congruence].
    destruct (rejection (onerror t) o3) as [e3|] eqn:E3; [|congruence].
    unfold start, bind, this. rewrite Hc. cbn [app].
    rewrite (start_loop_retry o1 _ 0 t e1 E1) by (unfold MAX_RETRIES; lia).
    rewrite <- (onerror_after_attempt o1) in E2, E3.
    rewrite (start_loop_retry o2 _ 1 _ e2 E2) by (unfold MAX_RETRIES; lia).
    rewrite <- (onerror_after_attempt o2) in E3.
    rewrite (start_loop_last o3 _ 2 _ e3 E3) by reflexivity.
    unfold trace_of. cbn [snd app flat_map].
    rewrite !error_reports_app. cbn [error_reports].
    rewrite !error_reports_app. cbn [error_reports].
    rewrite (error_reports_attempt_events t o1 cb Hcb).
    rewrite (error_reports_attempt_events _ o2 cb)
      by (rewrite onerror_after_attempt; exact Hcb).
    rewrite (error_reports_attempt_events _ o3 cb)
      by (rewrite !onerror_after_attempt; exact Hcb).
    rewrite app_nil_r. reflexivity.
  - intros Hlen s rest.
    unfold start, bind, this. rewrite Hc.
    rewrite (start_loop_retries fails _ 0 t Hall) by (unfold MAX_RETRIES; lia).
    rewrite start_loop_open by (unfold MAX_RETRIES; lia).
    unfold trace_of. cbn [snd app].
    rewrite error_reports_app, (error_reports_failed_connects fails cb t Hcb).
    cbn [error_reports]. rewrite app_nil_r. reflexivity.
Qed.

(** ** Send attempts *)

Lemma attempt_error_is_Error (a : SendAttempt) (e : Exn) :
  attempt_error a = Some e -> instanceof_Error e = true.
Proof.
  unfold attempt_error.
  destruct (negb (ReadyState_eqb (ready a) OPEN)).
  - intros H. injection H as <-. reflexivity.
  - destruct (write a); intros H; try discriminate; injection H as <-; reflexivity.
Qed.

Lemma send_attempt_failed (message : JSONRPCMessage) (a : SendAttempt)
  (t : WebSocketMCPTransport) (s : Socket) (e : Exn) :
  socket t = Some s ->
  attempt_error a = Some e ->
  send_attempt message a t =
  (Threw e, t, attempt_trace s (JSON_stringify message) a).
Proof.
  unfold send_attempt, attempt_error, attempt_trace, bind, this.
  intros ->. destruct (negb (ReadyState_eqb (ready a) OPEN)).
  - intros H. injection H as <-. reflexivity.
  - unfold socket_send, bind, emit, throw.
    destruct (write a); intros H; try discriminate; injection H as <-; reflexivity.
Qed.

Lemma send_attempt_done (message : JSONRPCMessage) (a : SendAttempt)
  (t : WebSocketMCPTransport) (s : Socket) :
  socket t = Some s ->
  attempt_error a = None ->
  send_attempt message a t =
  (Returned tt, t, [SocketSend s (JSON_stringify message)]).
Proof.
  unfold send_attempt, attempt_error, bind, this.
  intros ->. destruct (negb (ReadyState_eqb (ready a) OPEN)); [discriminate|].
  unfold socket_send, bind, emit.
  destruct (write a); intros H; try discriminate. reflexivity.
Qed.

(** The loop of [send], unfolded once. *)
Lemma send_loop_cons (message : JSONRPCMessage) (a : SendAttempt)
  (script : list SendAttempt) (n : nat) :
  send_loop message (a :: script) n =
  if n <? MAX_RETRIES then
    try_catch
      (send_attempt message a)
      (fun error =>
         if S n =? MAX_RETRIES then
           (if instanceof_Error error then call_onerror error
            else call_onerror (Error (String_of error) None)) ;;
           throw error
         else delay RETRY_DELAY_MS ;; send_loop message script (S n))
  else ret tt.
Proof. reflexivity. Qed.

Lemma send_loop_retry (message : JSONRPCMessage) (a : SendAttempt)
  (script : list SendAttempt) (n : nat) (t : WebSocketMCPTransport)
  (s : Socket) (e : Exn) :
  socket t = Some s ->
  attempt_error a = Some e ->
  S n < MAX_RETRIES ->
  send_loop message (a :: script) n t =
  match send_loop message script (S n) t with
  | (r, t', tr) =>
      (r, t', attempt_trace s (JSON_stringify message) a ++
              Delay RETRY_DELAY_MS :: tr)
  end.
Proof.
  intros Hs He Hn. rewrite send_loop_cons.
  assert (Hlt : (n <? MAX_RETRIES) = true) by (apply Nat.ltb_lt; lia).
  assert (Hne : (S n =? MAX_RETRIES) = false) by (apply Nat.eqb_neq; lia).
  rewrite Hlt, Hne. unfold try_catch.
  rewrite (send_attempt_failed message a t s e Hs He).
  unfold bind, delay, emit.
  destruct (send_loop message script (S n) t) as [[r t'] tr]. reflexivity.
Qed.

Lemma send_loop_done (message : JSONRPCMessage) (a : SendAttempt)
  (script : list SendAttempt) (n : nat) (t : WebSocketMCPTransport) (s : Socket) :
  socket t = Some s ->
  attempt_error a = None ->
  n < MAX_RETRIES ->
  send_loop message (a :: script) n t =
  (Returned tt, t, [SocketSend s (JSON_stringify message)]).
Proof.
  intros Hs He Hn. rewrite send_loop_cons.
  assert (Hlt : (n <? MAX_RETRIES) = true) by (apply Nat.ltb_lt; lia).
  rewrite Hlt. unfold try_catch.
  rewrite (send_attempt_done message a t s Hs He). reflexivity.
Qed.

(** The failing attempt that uses up the attempts: the error is reported to
    the error callback and thrown. *)
Lemma send_loop_last (message : JSONRPCMessage) (a : SendAttempt)
  (script : list SendAttempt) (n : nat) (t : WebSocketMCPTransport)
  (s : Socket) (e : Exn) (cb : Exn -> CallbackResult) :
  socket t = Some s ->
  attempt_error a = Some e ->
  S n = MAX_RETRIES ->
  onerror t = Some cb ->
  cb e = CbReturns ->
  send_loop message (a :: script) n t =
  (Threw e, t, attempt_trace s (JSON_stringify message) a ++ [CallOnError e]).
Proof.
  intros Hs He Hn Hcb Hret. rewrite send_loop_cons.
  assert (Hlt : (n <? MAX_RETRIES) = true) by (apply Nat.ltb_lt; lia).
  assert (Hne : (S n =? MAX_RETRIES) = true) by (apply Nat.eqb_eq; lia).
  rewrite Hlt, Hne. unfold try_catch.
  rewrite (send_attempt_failed message a t s e Hs He).
  rewrite (attempt_error_is_Error a e He).
  unfold call_onerror, bind, this, emit, throw. rewrite Hcb. simpl.
  rewrite Hret. reflexivity.
Qed.

Lemma send_loop_retries (message : JSONRPCMessage) (fails script : list SendAttempt)
  (t : WebSocketMCPTransport) (s : Socket) :
  socket t = Some s ->
  Forall (fun a => attempt_error a <> None) fails ->
  forall n,
  n + length fails < MAX_RETRIES ->
  send_loop message (fails ++ script) n t =
  match send_loop message script (n + length fails) t with
  | (r, t', tr) => (r, t', failed_sends s (JSON_stringify message) fails ++ tr)
  end.
Proof.
  intros Hs Hall.
  induction Hall as [|a fails Ha Hall IH]; intros n Hn;
    cbn [app length failed_sends].
  - rewrite Nat.add_0_r.
    destruct (send_loop message script n t) as [[r t'] tr]. reflexivity.
  - destruct (attempt_error a) as [e|] eqn:He; [|congruence].
    cbn [length] in Hn.
    rewrite (send_loop_retry message a _ n t s e Hs He) by lia.
    rewrite IH by lia.
    replace (S n + length fails) with (n + S (length fails)) by lia.
    destruct (send_loop message script (n + S (length fails)) t) as [[r t'] tr].
    rewrite <- app_assoc. reflexivity.
Qed.

Lemma error_reports_attempt_trace (s : Socket) (data : string) (a : SendAttempt) :
  error_reports (attempt_trace s data a) = [].
Proof.
  unfold attempt_trace. destruct (negb (ReadyState_eqb (ready a) OPEN)); reflexivity.
Qed.

Lemma error_reports_failed_sends (s : Socket) (data : string) (l : list SendAttempt) :
  error_reports (failed_sends s data l) = [].
Proof.
  induction l as [|a l IH]; cbn [failed_sends]; [reflexivity|].
  rewrite error_reports_app, error_reports_attempt_trace. exact IH.
Qed.

(** C3. On a connected transport, [send] returns as soon as the write of
    one of its (at most three) attempts succeeds: the failed attempts before
    it are each followed by the backoff delay, the successful write is the
    last event, and the rest of the script is never consulted.  When all
    three attempts fail, the trace contains exactly one call of the error
    callback, made after the third attempt with that attempt's error, and
    [send] throws that same error. *)
Theorem send_retries_and_reports_once (message : JSONRPCMessage)
  (t : WebSocketMCPTransport) (s : Socket) :
  socket t = Some s ->
  connected t = true ->
  (forall fails a rest,
     length fails < 3 ->
     Forall (fun a => attempt_error a <> None) fails ->
     attempt_error a = None ->
     send message (fails ++ a :: rest) t =
     (Returned tt, t,
      failed_sends s (JSON_stringify message) fails ++
      [SocketSend s (JSON_stringify message)])) /\
  (forall a1 a2 a3 rest e cb,
     attempt_error a1 <> None ->
     attempt_error a2 <> None ->
     attempt_error a3 = Some e ->
     onerror t = Some cb ->
     cb e = CbReturns ->
     exists tr,
       send message (a1 :: a2 :: a3 :: rest) t = (Threw e, t, tr) /\
       tr = failed_sends s (JSON_stringify message) [a1; a2] ++
            attempt_trace s (JSON_stringify message) a3 ++ [CallOnError e] /\
       error_reports tr = [e]).
Proof.
  intros Hs Hc. split.
  - intros fails a rest Hlen Hall Ha.
    unfold send, bind, this. rewrite Hs, Hc. cbn [negb].
    rewrite (send_loop_retries message fails _ t s Hs Hall 0)
      by (unfold MAX_RETRIES; lia).
    rewrite (send_loop_done message a rest _ t s Hs Ha)
      by (unfold MAX_RETRIES; lia).
    reflexivity.
  - intros a1 a2 a3 rest e cb H1 H2 H3 Hcb Hret.
    unfold send, bind, this. rewrite Hs, Hc. cbn [negb].
    assert (Hall : Forall (fun a => attempt_error a <> None) [a1; a2])
      by (repeat constructor; assumption).
    change (a1 :: a2 :: a3 :: rest) with ([a1; a2] ++ a3 :: rest).
    rewrite (send_loop_retries message [a1; a2] _ t s Hs Hall 0)
      by (unfold MAX_RETRIES; cbn [length]; lia).
    rewrite (send_loop_last message a3 rest _ t s e cb Hs H3) by
      first [reflexivity | assumption].
    eexists. split; [reflexivity|]. split; [reflexivity|].
    rewrite !error_reports_app, error_reports_failed_sends,
      error_reports_attempt_trace. reflexivity.
Qed.

(** ** close *)

(** [close] when neither the socket's own [close()] nor the consumer's
    callback throws. *)
Lemma close_completes (env : CloseEnv) (t : WebSocketMCPTransport) :
  close_throws env = None ->
  (forall cb, onclose t = Some cb -> cb tt = CbReturns) ->
  exists tr,
    close env t = (Returned tt, closed t, tr) /\
    close_calls tr = match onclose t with Some _ => 1 | None => 0 end.
Proof.
  intros Hth Hcb.
  destruct t as [sock u conn ab hd oc oe om].
  destruct env as [rs th]. simpl in Hth. subst th.
  unfold close, socket_close, call_onclose, closed, bind, this, modify, emit, ret.
  simpl in *.
  destruct oc as [cb|].
  - specialize (Hcb cb eq_refl).
    destruct sock as [s|]; [destruct rs|]; simpl; rewrite Hcb;
      eexists; (split; [reflexivity|reflexivity]).
  - destruct sock as [s|]; [destruct rs|]; simpl;
      eexists; (split; [reflexivity|reflexivity]).
Qed.

Lemma closed_closed (t : WebSocketMCPTransport) : closed (closed t) = closed t.
Proof. reflexivity. Qed.

(** X25. Provided that the socket's own [close()] and the consumer's close
    callback do not throw, [close] returns from every prior state, leaves
    the transport disconnected without a socket, and calls the close
    callback exactly once before it returns; a second [close] right after it
    does the same again. *)
Theorem close_calls_back_once_per_call (env env' : CloseEnv)
  (t : WebSocketMCPTransport) (cb : unit -> CallbackResult) :
  close_throws env = None ->
  close_throws env' = None ->
  onclose t = Some cb ->
  cb tt = CbReturns ->
  exists t1 tr1 tr2,
    close env t = (Returned tt, t1, tr1) /\
    close_calls tr1 = 1 /\
    socket t1 = None /\
    connected t1 = false /\
    close env' t1 = (Returned tt, t1, tr2) /\
    close_calls tr2 = 1.
Proof.
  intros Hth Hth' Hcb Hret.
  destruct (close_completes env t Hth) as [tr1 [H1 C1]].
  { intros cb' Hcb'. rewrite Hcb in Hcb'. injection Hcb' as <-. exact Hret. }
  destruct (close_completes env' (closed t) Hth') as [tr2 [H2 C2]].
  { intros cb' Hcb'. simpl in Hcb'. rewrite Hcb in Hcb'.
    injection Hcb' as <-. exact Hret. }
  rewrite Hcb in C1. simpl in C2. rewrite Hcb in C2.
  exists (closed t), tr1, tr2. rewrite closed_closed in H2.
  repeat split; assumption.
Qed.

(** C6. One call of [close] on a transport that holds an open socket makes
    the consumer's close callback run twice: [close] calls the socket's own
    [close()] and then the callback, and the close event that the socket
    emits in answer runs the handler which [_connect] installed on it and
    which [close] left in place, and that handler calls the callback again.
    When the transport holds no socket, or a socket that is not open, no
    close event follows and the callback runs once. *)
Theorem close_of_an_open_socket_calls_back_twice (env : CloseEnv)
  (t : WebSocketMCPTransport) (cb : unit -> CallbackResult) :
  close_throws env = None ->
  onclose t = Some cb ->
  cb tt = CbReturns ->
  exists tr,
    close_then_close_event env t = (Returned tt, closed t, tr) /\
    close_calls tr =
      match socket t with
      | Some _ => if ReadyState_eqb (close_readyState env) OPEN then 2 else 1
      | None => 1
      end.
Proof.
  intros Hth Hcb Hret.
  destruct (close_completes env t Hth) as [tr1 [H1 C1]].
  { intros cb' Hcb'. rewrite Hcb in Hcb'. injection Hcb' as <-. exact Hret. }
  rewrite Hcb in C1.
  unfold close_then_close_event, bind, this. rewrite H1.
  destruct (socket t) as [s|]; cbn [app].
  - destruct (ReadyState_eqb (close_readyState env) OPEN).
    + unfold socket_onclose, call_onclose, bind, this, modify, emit, ret.
      cbn [onclose closed set_connected]. rewrite Hcb. cbn. rewrite Hret.
      eexists. split; [reflexivity|].
      rewrite close_calls_app, C1. reflexivity.
    + eexists. split; [reflexivity|]. rewrite List.app_nil_r. exact C1.
  - eexists. split; [reflexivity|]. rewrite List.app_nil_r. exact C1.
Qed.

(** C8. [close] removes the stored socket handle (whenever the socket's own
    [close()] does not throw) and leaves the transport disconnected.  The
    handler of the socket's close event, which is how an unsolicited
    disconnect arrives, only clears [connected]: the stored handle stays as
    it was. *)
Theorem socket_discarded_by_close_only (env : CloseEnv) (t : WebSocketMCPTransport) :
  close_throws env = None ->
  (socket (state_of (close env t)) = None /\
   connected (state_of (close env t)) = false) /\
  (connected (state_of (socket_onclose t)) = false /\
   socket (state_of (socket_onclose t)) = socket t).
Proof.
  intros Hth. split.
  - destruct t as [sock u conn ab hd oc oe om].
    destruct env as [rs th]. simpl in Hth. subst th.
    unfold close, socket_close, call_onclose, state_of, bind, this, modify, emit, ret.
    destruct oc as [cb|]; [destruct (cb tt) eqn:E|];
      (destruct sock as [s|]; [destruct rs|]); simpl; rewrite ?E; simpl;
      split; reflexivity.
  - destruct t as [sock u conn ab hd oc oe om].
    unfold socket_onclose, call_onclose, state_of, bind, this, modify, emit, ret.
    destruct oc as [cb|]; [destruct (cb tt) eqn:E|]; simpl; rewrite ?E; simpl;
      split; reflexivity.
Qed.

(** ** The receive path *)

Lemma socket_onmessage_undecodable (data : MessageData) (t : WebSocketMCPTransport)
  (cause : Exn) :
  decode data = inl cause ->
  socket_onmessage data t = call_onerror (parse_error cause) t.
Proof.
  unfold decode, socket_onmessage, try_catch, bind, lift.
  destruct (dataString data) as [e|s]; simpl.
  - intros H. injection H as <-.
    destruct (call_onerror (parse_error e) t) as [[r t'] tr]. reflexivity.
  - destruct (JSON_parse s) as [e|j]; simpl.
    + intros H. injection H as <-.
      destruct (call_onerror (parse_error e) t) as [[r t'] tr]. reflexivity.
    + destruct (JSONRPCMessageSchema_parse j) as [e|m]; simpl; [|discriminate].
      intros H. injection H as <-.
      destruct (call_onerror (parse_error e) t) as [[r t'] tr]. reflexivity.
Qed.

Lemma socket_onmessage_decoded (data : MessageData) (t : WebSocketMCPTransport)
  (m : JSONRPCMessage) :
  decode data = inr m ->
  socket_onmessage data t =
  try_catch (call_onmessage m)
    (fun parseError => call_onerror (parse_error parseError)) t.
Proof.
  unfold decode, socket_onmessage, try_catch, bind, lift.
  destruct (dataString data) as [e|s]; simpl; [discriminate|].
  destruct (JSON_parse s) as [e|j]; simpl; [discriminate|].
  destruct (JSONRPCMessageSchema_parse j) as [e|m']; simpl; [discriminate|].
  intros H. injection H as <-.
  destruct (call_onmessage m' t) as [[[a|e|] t'] tr]; reflexivity.
Qed.

(** The three ways in which a payload fails to decode. *)
Lemma decode_failure (data : MessageData) (cause : Exn) :
  decode data = inl cause <->
  (exists chunks, data = DataBufferArray chunks /\ cause = unsupported_data) \/
  (exists s, dataString data = inr s /\ JSON_parse s = inl cause) \/
  (exists s j, dataString data = inr s /\ JSON_parse s = inr j /\
               JSONRPCMessageSchema_parse j = inl cause).
Proof.
  unfold decode. split.
  - destruct data as [s|b|b|chunks]; simpl.
    4: { intros H. injection H as <-. left. eexists. split; reflexivity. }
    all: match goal with |- context [JSON_parse ?x] =>
           destruct (JSON_parse x) as [e|j] eqn:Hj end.
    all: intros H.
    all: try (injection H as <-; right; left; eexists; split; [reflexivity|assumption]).
    all: right; right; do 2 eexists; split; [reflexivity|split; eassumption].
  - intros [[chunks [-> ->]]|[[s [Hs Hj]]|[s [j [Hs [Hj Hm]]]]]].
    + reflexivity.
    + rewrite Hs, Hj. reflexivity.
    + rewrite Hs, Hj. exact Hm.
Qed.

(** With callbacks that return, every event is handled and the messages
    that decode reach the message callback in arrival order. *)
Lemma receive_in_order (t : WebSocketMCPTransport)
  (mcb : JSONRPCMessage -> CallbackResult) (events : list MessageData) :
  onmessage t = Some mcb ->
  (forall ecb e, onerror t = Some ecb -> ecb e = CbReturns) ->
  exists tr,
    receive events t = (Returned tt, t, tr) /\
    deliveries tr = decoded events.
Proof.
  intros Hm He.
  induction events as [|data later [tr [IH D]]]; cbn [receive decoded].
  - exists []. split; reflexivity.
  - unfold bind. destruct (decode data) as [cause|m] eqn:Hd.
    + rewrite (socket_onmessage_undecodable data t cause Hd).
      unfold call_onerror, bind, this, emit. simpl.
      destruct (onerror t) as [ecb|] eqn:Hecb; simpl.
      * rewrite (He ecb _ eq_refl). simpl. rewrite IH.
        eexists. split; [reflexivity|]. simpl. exact D.
      * rewrite IH. eexists. split; [reflexivity|]. exact D.
    + rewrite (socket_onmessage_decoded data t m Hd).
      unfold try_catch, call_onmessage, call_onerror, bind, this, emit. simpl.
      rewrite Hm. simpl.
      destruct (mcb m) as [|x]; simpl.
      * rewrite IH. eexists. split; [reflexivity|]. simpl. rewrite D. reflexivity.
      * destruct (onerror t) as [ecb|] eqn:Hecb; simpl.
        -- rewrite (He ecb _ eq_refl). simpl. rewrite IH.
           eexists. split; [reflexivity|]. simpl. rewrite D. reflexivity.
        -- rewrite IH. eexists. split; [reflexivity|]. simpl. rewrite D. reflexivity.
Qed.

Lemma socket_onmessage_delivers (data : MessageData) (t : WebSocketMCPTransport)
  (m : JSONRPCMessage) (mcb : JSONRPCMessage -> CallbackResult) :
  decode data = inr m ->
  onmessage t = Some mcb ->
  state_of (socket_onmessage data t) = t /\
  deliveries (trace_of (socket_onmessage data t)) = [m].
Proof.
  intros Hd Hm. rewrite (socket_onmessage_decoded data t m Hd).
  unfold try_catch, call_onmessage, call_onerror, state_of, trace_of,
    bind, this, emit.
  simpl. rewrite Hm. simpl.
  destruct (mcb m) as [|x]; simpl; [split; reflexivity|].
  destruct (onerror t) as [ecb|]; simpl; [|split; reflexivity].
  destruct (ecb (parse_error x)); simpl; split; reflexivity.
Qed.



(** ** The constructor *)

Lemma replace_http_prefix_http (rest : string) :
  replace_http_prefix ("http" ++ rest) = ("ws" ++ rest)%string.
Proof. reflexivity. Qed.

(** The pattern ignores case. *)
Lemma replace_http_prefix_any_case (c1 c2 c3 c4 : ascii) (rest : string) :
  In c1 ["h"; "H"]%char -> In c2 ["t"; "T"]%char ->
  In c3 ["t"; "T"]%char -> In c4 ["p"; "P"]%char ->
  replace_http_prefix (String c1 (String c2 (String c3 (String c4 rest)))) =
  ("ws" ++ rest)%string.
Proof.
  simpl. intros [<-|[<-|[]]] [<-|[<-|[]]] [<-|[<-|[]]] [<-|[<-|[]]]; reflexivity.
Qed.

Lemma constructed_not_connected (address : string) (hs : option Headers)
  (t : WebSocketMCPTransport) :
  new_WebSocketMCPTransport address hs = inr t ->
  socket t = None /\ connected t = false.
Proof.
  unfold new_WebSocketMCPTransport.
  destruct (new_URL (replace_http_prefix address)); [discriminate|].
  intros H. injection H as <-. split; reflexivity.
Qed.

End Properties.


(** * The JSON functions *)

Section JsonFacts.

Import Json.

Lemma append_assoc (a b c : string) : ((a ++ b) ++ c = a ++ (b ++ c))%string.
Proof. induction a as [|x a IH]; simpl; [reflexivity|]. rewrite IH. reflexivity. Qed.

Lemma length_append (a b : string) :
  String.length (a ++ b) = String.length a + String.length b.
Proof. induction a as [|x a IH]; simpl; [reflexivity|]. rewrite IH. reflexivity. Qed.

Lemma JSON_induction (P : JSON -> Prop) :
  P JNull ->
  (forall b, P (JBool b)) ->
  (forall z, P (JNumber z)) ->
  (forall s, P (JString s)) ->
  (forall l, Forall P l -> P (JArray l)) ->
  (forall ms, Forall (fun kv => P (snd kv)) ms -> P (JObject ms)) ->
  forall j, P j.
Proof.
  intros Hnull Hbool Hnum Hstr Harr Hobj.
  fix IH 1. intros [|b|z|s|l|ms].
  - exact Hnull.
  - apply Hbool.
  - apply Hnum.
  - apply Hstr.
  - apply Harr. induction l as [|v l IHl]; constructor; [apply IH|exact IHl].
  - apply Hobj. induction ms as [|[k v] ms IHms]; constructor; [apply IH|exact IHms].
Qed.

(** ** String literals *)

Lemma read_escape_char (c : ascii) (tail : string) :
  read_string Plain (escape_char c ++ tail) =
  match read_string Plain tail with
  | Some (text, rest) => Some (String c text, rest)
  | None => None
  end.
Proof.
  destruct c as [[] [] [] [] [] [] [] []]; cbn; reflexivity.
Qed.

Lemma read_escape (s rest : string) :
  read_string Plain (escape s ++ String quote rest) = Some (s, rest).
Proof.
  induction s as [|c s IH].
  - reflexivity.
  - cbn [escape]. rewrite append_assoc, read_escape_char, IH. reflexivity.
Qed.

(** ** Numbers *)

Lemma read_digits_uint (d : Decimal.uint) (rest : string) :
  stops rest = true ->
  read_digits (DecimalString.NilEmpty.string_of_uint d ++ rest) =
  (DecimalString.NilEmpty.string_of_uint d, rest).
Proof.
  intros Hrest.
  induction d; cbn [DecimalString.NilEmpty.string_of_uint append read_digits];
    try (cbn [is_digit nat_of_ascii]; cbn; rewrite IHd; reflexivity).
  destruct rest as [|c rest]; [reflexivity|].
  cbn [read_digits]. unfold stops in Hrest.
  apply andb_true_iff in Hrest. destruct Hrest as [Hd _].
  apply negb_true_iff in Hd. rewrite Hd. reflexivity.
Qed.

Lemma to_uint_normal (n : N) (u : Decimal.uint) :
  N.to_uint n = Decimal.D0 u -> u = Decimal.Nil.
Proof.
  intros H.
  assert (Hn : N.to_uint n = Decimal.unorm (N.to_uint n)).
  { rewrite <- (DecimalN.Unsigned.to_of (N.to_uint n)).
    rewrite DecimalN.Unsigned.of_to. reflexivity. }
  rewrite H in Hn. unfold Decimal.unorm in Hn.
  destruct (Decimal.nzhead (Decimal.D0 u)) eqn:E;
    try (exfalso; apply (DecimalFacts.nzhead_nonzero (Decimal.D0 u) u);
         rewrite E; injection Hn as <-; reflexivity);
    try discriminate.
  injection Hn as <-. reflexivity.
Qed.

Lemma to_uint_nonnil (n : N) : N.to_uint n <> Decimal.Nil.
Proof.
  destruct n as [|p]; [discriminate|]. apply DecimalPos.Unsigned.to_uint_nonnil.
Qed.

Lemma natural_digits (n : N) : natural (digits n) = Some n.
Proof.
  unfold natural, digits.
  assert (Hback : DecimalString.NilEmpty.uint_of_string (DecimalString.NilEmpty.string_of_uint (N.to_uint n)) =
                  Some (N.to_uint n)) by apply DecimalString.NilEmpty.usu.
  destruct (N.to_uint n) as [|u|u|u|u|u|u|u|u|u|u] eqn:E;
    try (exfalso; apply (to_uint_nonnil n); exact E);
    try (cbn [DecimalString.NilEmpty.string_of_uint] in *; rewrite Hback;
         rewrite <- E, DecimalN.Unsigned.of_to; reflexivity).
  pose proof (to_uint_normal n u E) as ->.
  cbn. rewrite <- (DecimalN.Unsigned.of_to n), E. reflexivity.
Qed.

Lemma digits_first (n : N) :
  exists c s, digits n = String c s /\ is_digit c = true.
Proof.
  unfold digits.
  destruct (N.to_uint n) as [|u|u|u|u|u|u|u|u|u|u] eqn:E;
    try (exfalso; apply (to_uint_nonnil n); exact E);
    cbn [DecimalString.NilEmpty.string_of_uint]; do 2 eexists; split; reflexivity.
Qed.

Lemma read_number_digits (n : N) (rest : string) :
  stops rest = true ->
  read_number (digits n ++ rest) = Some (Z.of_N n, rest).
Proof.
  intros Hrest.
  assert (Hend : ends_number rest = true).
  { destruct rest as [|c rest]; [reflexivity|].
    unfold stops in Hrest. apply andb_true_iff in Hrest. apply Hrest. }
  destruct (digits_first n) as [c [s [E Hc]]].
  assert (Hrd : read_digits (digits n ++ rest) = (digits n, rest))
    by (apply read_digits_uint; exact Hrest).
  unfold read_number. rewrite E in *. cbn [append] in *.
  destruct c as [[] [] [] [] [] [] [] []]; try discriminate Hc;
    rewrite Hrd, <- E, natural_digits, Hend; reflexivity.
Qed.

Lemma read_number_number (z : Z) (rest : string) :
  stops rest = true ->
  read_number (number z ++ rest) = Some (z, rest).
Proof.
  intros Hrest. destruct z as [|p|p]; cbn [number].
  - apply (read_number_digits 0 rest Hrest).
  - apply (read_number_digits (Npos p) rest Hrest).
  - assert (Hend : ends_number rest = true).
    { destruct rest as [|c rest]; [reflexivity|].
      unfold stops in Hrest. apply andb_true_iff in Hrest. apply Hrest. }
    assert (Hrd : read_digits (digits (Npos p) ++ rest) = (digits (Npos p), rest))
      by (apply read_digits_uint; exact Hrest).
    change (read_number (String "-" (digits (N.pos p)) ++ rest))
      with (let '(ds, rest0) := read_digits (digits (Npos p) ++ rest) in
            match natural ds with
            | Some n =>
                if ends_number rest0 then Some (Z.opp (Z.of_N n), rest0) else None
            | None => None
            end).
    rewrite Hrd, natural_digits, Hend. reflexivity.
Qed.

Lemma number_first (z : Z) :
  exists c s, number z = String c s /\ begins_number c = true.
Proof.
  destruct z as [|p|p]; cbn [number].
  - destruct (digits_first 0) as [c [s [E Hc]]]. exists c, s.
    split; [exact E|]. unfold begins_number. rewrite Hc. reflexivity.
  - destruct (digits_first (Npos p)) as [c [s [E Hc]]]. exists c, s.
    split; [exact E|]. unfold begins_number. rewrite Hc. reflexivity.
  - do 2 eexists. split; reflexivity.
Qed.

(** ** Values *)

Lemma append_nil_r (s : string) : (s ++ "")%string = s.
Proof. induction s as [|c s IH]; simpl; [reflexivity|]. rewrite IH. reflexivity. Qed.

Lemma skip_space_char (c : ascii) (s : string) :
  is_space c = false -> skip_space (String c s) = String c s.
Proof. intros H. cbn [skip_space]. rewrite H. reflexivity. Qed.

Lemma begins_same (c : ascii) (s : string) : begins c (String c s) = Some s.
Proof. cbn [begins]. rewrite Ascii.eqb_refl. reflexivity. Qed.

Lemma begins_other (c c' : ascii) (s : string) :
  Ascii.eqb c' c = false -> begins c (String c' s) = None.
Proof. intros H. cbn [begins]. rewrite H. reflexivity. Qed.

Lemma parse_elements_S (fuel : nat) (s : string) :
  parse_elements (S fuel) s =
  match begins "]" (skip_space s) with
  | Some r => Some ([], r)
  | None =>
      match begins "," (skip_space s) with
      | Some r =>
          match parse_value fuel r with
          | Some (v, r1) =>
              match parse_elements fuel r1 with
              | Some (vs, r2) => Some (v :: vs, r2)
              | None => None
              end
          | None => None
          end
      | None => None
      end
  end.
Proof. reflexivity. Qed.

Lemma parse_member_S (fuel : nat) (s : string) :
  parse_member (S fuel) s =
  match begins quote (skip_space s) with
  | Some s1 =>
      match read_string Plain s1 with
      | Some (k, s2) =>
          match begins ":" (skip_space s2) with
          | Some s3 =>
              match parse_value fuel s3 with
              | Some (v, r) => Some (k, v, r)
              | None => None
              end
          | None => None
          end
      | None => None
      end
  | None => None
  end.
Proof. reflexivity. Qed.

Lemma parse_members_S (fuel : nat) (acc : list (string * JSON)) (s : string) :
  parse_members (S fuel) acc s =
  match begins "}" (skip_space s) with
  | Some r => Some (acc, r)
  | None =>
      match begins "," (skip_space s) with
      | Some r =>
          match parse_member fuel r with
          | Some (k, v, r1) => parse_members fuel (set_member k v acc) r1
          | None => None
          end
      | None => None
      end
  end.
Proof. reflexivity. Qed.

Lemma parse_value_array (fuel : nat) (s : string) :
  parse_value (S fuel) (String "[" s) =
  match begins "]" (skip_space s) with
  | Some r => Some (JArray [], r)
  | None =>
      match parse_value fuel s with
      | Some (v, r) =>
          match parse_elements fuel r with
          | Some (vs, r') => Some (JArray (v :: vs), r')
          | None => None
          end
      | None => None
      end
  end.
Proof. reflexivity. Qed.

Lemma parse_value_object (fuel : nat) (s : string) :
  parse_value (S fuel) (String "{" s) =
  match begins "}" (skip_space s) with
  | Some r => Some (JObject [], r)
  | None =>
      match parse_member fuel s with
      | Some (k, v, r) =>
          match parse_members fuel [(k, v)] r with
          | Some (ms, r') => Some (JObject ms, r')
          | None => None
          end
      | None => None
      end
  end.
Proof. reflexivity. Qed.

Lemma begins_number_plain (c : ascii) :
  begins_number c = true ->
  is_space c = false /\ Ascii.eqb c "n" = false /\ Ascii.eqb c "t" = false /\
  Ascii.eqb c "f" = false /\ Ascii.eqb c quote = false /\
  Ascii.eqb c "[" = false /\ Ascii.eqb c "{" = false /\
  Ascii.eqb c "]" = false /\ Ascii.eqb c "}" = false.
Proof.
  destruct c as [[] [] [] [] [] [] [] []]; cbn; intros H;
    try discriminate H; repeat split.
Qed.

(** The first character of the text of a value is not a space and closes
    neither an array nor an object. *)
Lemma stringify_first (j : JSON) :
  exists c s,
    stringify j = String c s /\
    is_space c = false /\ Ascii.eqb c "]" = false /\ Ascii.eqb c "}" = false.
Proof.
  destruct j as [|[]|z|s|l|ms]; try (do 2 eexists; repeat split; reflexivity).
  destruct (number_first z) as [c [s [E Hc]]].
  destruct (begins_number_plain c Hc) as [H1 [_ [_ [_ [_ [_ [_ [H2 H3]]]]]]]].
  exists c, s. cbn [stringify]. repeat split; assumption.
Qed.

Lemma skip_space_value (j : JSON) (rest : string) :
  skip_space (stringify j ++ rest) = (stringify j ++ rest)%string.
Proof.
  destruct (stringify_first j) as [c [s [E [H _]]]]. rewrite E.
  cbn [append skip_space]. rewrite H. reflexivity.
Qed.

Lemma begins_value (j : JSON) (rest : string) :
  begins "]" (stringify j ++ rest) = None /\
  begins "}" (stringify j ++ rest) = None.
Proof.
  destruct (stringify_first j) as [c [s [E [_ [H1 H2]]]]]. rewrite E.
  cbn [append begins]. rewrite H1, H2. split; reflexivity.
Qed.

Lemma stops_elements_rest (l : list JSON) (rest : string) :
  stops (elements_rest l ++ String "]" rest) = true.
Proof. destruct l; reflexivity. Qed.

Lemma stops_members_rest (l : list (string * JSON)) (rest : string) :
  stops (members_rest l ++ String "}" rest) = true.
Proof. destruct l as [|[k v] l]; reflexivity. Qed.

Lemma parse_elements_rest (l : list JSON) :
  Forall parses_back l ->
  forallb representable l = true ->
  forall fuel rest,
    String.length (elements_rest l) + 1 <= fuel ->
    parse_elements fuel (elements_rest l ++ String "]" rest) = Some (l, rest).
Proof.
  induction 1 as [|v l Hv Hl IH]; intros Hrep fuel rest Hfuel.
  - destruct fuel as [|fuel]; [cbn in Hfuel; lia|]. reflexivity.
  - cbn [forallb] in Hrep. apply andb_true_iff in Hrep. destruct Hrep as [Rv Rl].
    cbn [elements_rest] in Hfuel. rewrite !length_append in Hfuel.
    cbn [String.length] in Hfuel.
    destruct fuel as [|fuel]; [lia|].
    cbn [elements_rest]. rewrite !append_assoc. cbn [append].
    rewrite parse_elements_S, skip_space_char by reflexivity.
    rewrite begins_other by reflexivity. rewrite begins_same.
    rewrite (Hv Rv fuel _) by first [lia | apply stops_elements_rest].
    rewrite (IH Rl fuel rest) by lia. reflexivity.
Qed.

Lemma parse_member_text (k : string) (v : JSON) (fuel : nat) (tail : string) :
  parses_back v ->
  representable v = true ->
  String.length (stringify v) + 1 <= fuel ->
  stops tail = true ->
  parse_member fuel (String quote (escape k ++ String quote
                       (String ":" (stringify v ++ tail)))) = Some (k, v, tail).
Proof.
  intros Hv Rv Hfuel Htail.
  destruct fuel as [|fuel]; [lia|].
  rewrite parse_member_S, skip_space_char by reflexivity.
  rewrite begins_same, read_escape.
  rewrite skip_space_char by reflexivity. rewrite begins_same.
  rewrite (Hv Rv fuel tail) by first [lia | assumption]. reflexivity.
Qed.

Lemma quoted_member (k : string) (v tail : string) :
  (quoted k ++ String ":" (v ++ tail))%string =
  String quote (escape k ++ String quote (String ":" (v ++ tail))).
Proof.
  unfold quoted. cbn [append]. rewrite append_assoc. reflexivity.
Qed.

Lemma distinct_NoDup (keys : list string) : distinct keys = true -> NoDup keys.
Proof.
  induction keys as [|k keys IH]; cbn [distinct]; intros H; constructor.
  - apply andb_true_iff in H. destruct H as [H _]. apply negb_true_iff in H.
    intros Hin. assert (existsb (String.eqb k) keys = true); [|congruence].
    apply existsb_exists. exists k. split; [exact Hin|apply String.eqb_refl].
  - apply IH. apply andb_true_iff in H. apply H.
Qed.

Lemma set_member_fresh (k : string) (v : JSON) (acc : list (string * JSON)) :
  ~ In k (map fst acc) -> set_member k v acc = acc ++ [(k, v)].
Proof.
  induction acc as [|[k' v'] acc IH]; cbn [set_member map fst In app];
    intros Hin; [reflexivity|].
  destruct (String.eqb k' k) eqn:E.
  - apply String.eqb_eq in E. exfalso. apply Hin. left. exact E.
  - rewrite IH; [reflexivity|]. intros H. apply Hin. right. exact H.
Qed.

Lemma parse_members_rest (l : list (string * JSON)) :
  Forall (fun kv => parses_back (snd kv)) l ->
  forallb (fun kv => representable (snd kv)) l = true ->
  forall acc fuel rest,
    NoDup (map fst (acc ++ l)) ->
    String.length (members_rest l) + 1 <= fuel ->
    parse_members fuel acc (members_rest l ++ String "}" rest) =
    Some (acc ++ l, rest).
Proof.
  induction 1 as [|[k v] l Hv Hl IH]; intros Hrep acc fuel rest Hnd Hfuel.
  - destruct fuel as [|fuel]; [cbn in Hfuel; lia|]. rewrite List.app_nil_r. reflexivity.
  - cbn [forallb snd] in Hrep. apply andb_true_iff in Hrep. destruct Hrep as [Rv Rl].
    cbn [snd] in Hv.
    cbn [members_rest] in Hfuel. rewrite !length_append in Hfuel.
    cbn [String.length] in Hfuel.
    destruct fuel as [|fuel]; [lia|].
    cbn [members_rest]. rewrite !append_assoc. cbn [append].
    rewrite parse_members_S, skip_space_char by reflexivity.
    rewrite begins_other by reflexivity. rewrite begins_same.
    rewrite quoted_member.
    rewrite (parse_member_text k v fuel _ Hv Rv)
      by first [lia | apply stops_members_rest].
    rewrite set_member_fresh.
    + rewrite (IH Rl (acc ++ [(k, v)]) fuel rest).
      * rewrite <- List.app_assoc. reflexivity.
      * rewrite <- List.app_assoc. exact Hnd.
      * lia.
    + rewrite map_app in Hnd. cbn [map fst] in Hnd.
      apply NoDup_remove_2 in Hnd. intros Hin. apply Hnd.
      apply in_or_app. left. exact Hin.
Qed.

Lemma stringify_parses_back (j : JSON) : parses_back j.
Proof.
  induction j as [|b|z|s|l IHl|ms IHms] using JSON_induction;
    intros Hrep fuel rest Hfuel Hrest.
  - destruct fuel as [|fuel]; [cbn in Hfuel; lia|]. reflexivity.
  - destruct fuel as [|fuel]; [destruct b; cbn in Hfuel; lia|].
    destruct b; reflexivity.
  - destruct fuel as [|fuel].
    { destruct (number_first z) as [c [s [E _]]]. cbn [stringify] in Hfuel.
      rewrite E in Hfuel. cbn in Hfuel. lia. }
    cbn [stringify]. destruct (number_first z) as [c [s [E Hc]]].
    destruct (begins_number_plain c Hc) as [H0 [H1 [H2 [H3 [H4 [H5 [H6 _]]]]]]].
    pose proof (read_number_number z rest Hrest) as Hnum.
    rewrite E in *. cbn [append] in *.
    cbn [parse_value skip_space]. rewrite H0, H1, H2, H3, H4, H5, H6, Hnum.
    reflexivity.
  - destruct fuel as [|fuel]; [cbn in Hfuel; lia|].
    cbn [stringify]. unfold quoted. cbn [append]. rewrite append_assoc.
    cbn [parse_value]. rewrite skip_space_char by reflexivity.
    change (Ascii.eqb quote "n") with false.
    change (Ascii.eqb quote "t") with false.
    change (Ascii.eqb quote "f") with false.
    rewrite Ascii.eqb_refl. cbn [append]. rewrite read_escape. reflexivity.
  - cbn [representable] in Hrep.
    destruct l as [|v more].
    + destruct fuel as [|fuel]; [cbn in Hfuel; lia|]. reflexivity.
    + inversion IHl as [|? ? Hv Hmore]; subst.
      cbn [forallb] in Hrep. apply andb_true_iff in Hrep. destruct Hrep as [Rv Rm].
      change (stringify (JArray (v :: more)))
        with ("[" ++ (stringify v ++ elements_rest more) ++ "]")%string in *.
      rewrite !length_append in Hfuel. cbn [String.length] in Hfuel.
      destruct fuel as [|fuel]; [lia|].
      rewrite !append_assoc. cbn [append].
      rewrite parse_value_array, skip_space_value, (proj1 (begins_value v _)).
      rewrite (Hv Rv fuel _) by first [lia | apply stops_elements_rest].
      rewrite (parse_elements_rest more Hmore Rm fuel rest) by lia.
      reflexivity.
  - cbn [representable] in Hrep. apply andb_true_iff in Hrep.
    destruct Hrep as [Hd Rms]. apply andb_true_iff in Hd. destruct Hd as [Hd _].
    destruct ms as [|[k v] more].
    + destruct fuel as [|fuel]; [cbn in Hfuel; lia|]. reflexivity.
    + inversion IHms as [|? ? Hv Hmore]; subst. cbn [snd] in Hv.
      cbn [forallb snd] in Rms. apply andb_true_iff in Rms. destruct Rms as [Rv Rm].
      change (stringify (JObject ((k, v) :: more)))
        with ("{" ++ (quoted k ++ ":" ++ stringify v ++ members_rest more) ++ "}")%string
        in *.
      rewrite !length_append in Hfuel. cbn [String.length] in Hfuel.
      destruct fuel as [|fuel]; [lia|].
      rewrite !append_assoc. cbn [append].
      rewrite parse_value_object.
      rewrite quoted_member.
      rewrite skip_space_char by reflexivity.
      rewrite begins_other by reflexivity.
      rewrite (parse_member_text k v fuel _ Hv Rv)
        by first [lia | apply stops_members_rest].
      rewrite (parse_members_rest more Hmore Rm [(k, v)] fuel rest);
        [reflexivity| |lia].
      apply distinct_NoDup. exact Hd.
Qed.

(** Parsing what [stringify] wrote gives the value back. *)
Lemma parse_stringify (j : JSON) :
  representable j = true -> parse (stringify j) = inr j.
Proof.
  intros Hrep. unfold parse.
  pose proof (stringify_parses_back j Hrep (S (String.length (stringify j)))
                EmptyString) as H.
  rewrite append_nil_r in H. rewrite H by first [lia | reflexivity]. reflexivity.
Qed.

End JsonFacts.

(** * Sending and receiving over the codec *)

Section RoundTrip.

Variable schema : Json.JSON -> Exn + Json.JSON.

(** A representable message that the schema accepts as it is decodes, from
    the text that [JSON.stringify] gives for it, to itself. *)
Lemma decode_stringify (m : Json.JSON) (data : @MessageData) :
  Json.representable m = true ->
  schema m = inr m ->
  dataString (P := Json.platform schema) data = inr (Json.stringify m) ->
  decode (P := Json.platform schema) data = inr m.
Proof.
  intros Hrep Hm Hdata. unfold decode. rewrite Hdata.
  cbn [JSON_parse JSONRPCMessageSchema_parse Json.platform].
  rewrite (parse_stringify m Hrep). exact Hm.
Qed.


End RoundTrip.
(** * Further properties of the transport *)

Section MoreProperties.

Context {P : Platform}.

Lemma waits_app (a b : list Event) : waits (a ++ b) = waits a ++ waits b.
Proof.
  induction a as [|ev a IH]; [reflexivity|].
  destruct ev; simpl; rewrite IH; reflexivity.
Qed.

Lemma signals_app (a b : list Event) : signals (a ++ b) = signals a ++ signals b.
Proof.
  induction a as [|ev a IH]; [reflexivity|].
  destruct ev; simpl; rewrite IH; reflexivity.
Qed.

Lemma socket_closes_app (a b : list Event) :
  socket_closes (a ++ b) = socket_closes a ++ socket_closes b.
Proof.
  induction a as [|ev a IH]; [reflexivity|].
  destruct ev; simpl; rewrite IH; reflexivity.
Qed.

(** ** The loop of [start] on any script *)

(** Whatever the socket and the consumer do, one run of [_connect]
    constructs one socket, sets no timer and leaves the object as
    [after_attempt] says. *)
Lemma _connect_any (o : ConnectOutcome) (t : WebSocketMCPTransport) :
  exists r tr,
    _connect o t = (r, after_attempt o t, construction t :: tr) /\
    connect_attempts tr = 0 /\ waits tr = [] /\ signals tr = [] /\
    (r = Returned tt -> exists s, o = SocketOpens s /\ tr = []).
Proof.
  unfold _connect, construction, bind, this, emit, modify, throw.
  destruct o as [x|s|s cause]; simpl.
  - do 2 eexists. split; [reflexivity|]. repeat split. discriminate.
  - do 2 eexists. split; [reflexivity|]. repeat split. eauto.
  - unfold socket_onerror, call_onerror, bind, this, emit, ret. simpl.
    destruct (onerror t) as [cb|]; simpl.
    + destruct (cb (connection_error cause)); simpl;
        (do 2 eexists; split; [reflexivity|]; repeat split; discriminate).
    + do 2 eexists. split; [reflexivity|]. repeat split. discriminate.
Qed.

(** One iteration of the loop of [start], in terms of what [_connect]
    does. *)
Lemma start_loop_step (o : ConnectOutcome) (script : list ConnectOutcome)
  (n : nat) (t : WebSocketMCPTransport) :
  n < MAX_RETRIES ->
  start_loop (o :: script) n t =
  match _connect o t with
  | (Returned _, t1, tr1) => (Returned tt, set_connected true t1, tr1)
  | (Threw e, t1, tr1) =>
      if S n =? MAX_RETRIES then (Threw e, t1, tr1)
      else
        match start_loop script (S n) t1 with
        | (r, t2, tr2) => (r, t2, tr1 ++ Delay RETRY_DELAY_MS :: tr2)
        end
  | (Pending, t1, tr1) => (Pending, t1, tr1)
  end.
Proof.
  intros Hn. rewrite start_loop_cons.
  assert (Hlt : (n <? MAX_RETRIES) = true) by (apply Nat.ltb_lt; lia).
  rewrite Hlt. unfold try_catch, bind at 1.
  destruct (_connect o t) as [[[u|e|] t1] tr1].
  - unfold modify. rewrite app_nil_r. destruct u. reflexivity.
  - destruct (S n =? MAX_RETRIES).
    + unfold throw. rewrite app_nil_r. reflexivity.
    + unfold bind, delay, emit.
      destruct (start_loop script (S n) t1) as [[r t2] tr2]. reflexivity.
  - reflexivity.
Qed.

Lemma start_loop_nil (n : nat) (t : WebSocketMCPTransport) :
  n < MAX_RETRIES -> start_loop [] n t = (Pending, t, []).
Proof.
  intros Hn. unfold start_loop.
  assert (Hlt : (n <? MAX_RETRIES) = true) by (apply Nat.ltb_lt; lia).
  rewrite Hlt. reflexivity.
Qed.

Lemma start_loop_bounded (script : list ConnectOutcome) :
  forall (n : nat) (t : WebSocketMCPTransport),
  n < MAX_RETRIES ->
  connect_attempts (trace_of (start_loop script n t)) + n <= MAX_RETRIES /\
  length (waits (trace_of (start_loop script n t))) + S n <= MAX_RETRIES /\
  Forall (eq RETRY_DELAY_MS) (waits (trace_of (start_loop script n t))) /\
  Forall (eq (aborted (abortController t)))
    (signals (trace_of (start_loop script n t))).
Proof.
  induction script as [|o script IH]; intros n t Hn.
  - rewrite start_loop_nil by exact Hn. unfold trace_of. simpl. bounds.
  - rewrite start_loop_step by exact Hn.
    destruct (_connect_any o t) as [r [tr [H [Ha [Hw [Hs _]]]]]]. rewrite H.
    destruct r as [u|e|].
    + unfold trace_of. simpl. rewrite Ha, Hw, Hs. simpl.
      bounds.
    + destruct (S n =? MAX_RETRIES) eqn:Heq.
      * unfold trace_of. simpl. rewrite Ha, Hw, Hs. simpl.
        bounds.
      * apply Nat.eqb_neq in Heq.
        assert (Hn' : S n < MAX_RETRIES) by lia.
        destruct (IH (S n) (after_attempt o t) Hn') as [I1 [I2 [I3 I4]]].
        destruct (start_loop script (S n) (after_attempt o t)) as [[r t2] tr2].
        unfold trace_of in *. simpl in *.
        rewrite connect_attempts_app, waits_app, signals_app. simpl.
        rewrite Ha, Hw, Hs. simpl.
        assert (Hab : aborted (abortController (after_attempt o t)) =
                      aborted (abortController t)) by (destruct o; reflexivity).
        rewrite Hab in I4.
        repeat split; try lia.
        -- constructor; [reflexivity|exact I3].
        -- constructor; [reflexivity|exact I4].
    + unfold trace_of. simpl. rewrite Ha, Hw, Hs. simpl.
      bounds.
Qed.

(** X1. Whatever the sockets do and however long the script is, a run of
    [start] constructs at most 3 sockets and waits at most twice, each time
    for 1000 ms. *)
Theorem start_is_bounded (script : list ConnectOutcome) (t : WebSocketMCPTransport) :
  connect_attempts (trace_of (start script t)) <= 3 /\
  length (waits (trace_of (start script t))) <= 2 /\
  Forall (eq 1000) (waits (trace_of (start script t))).
Proof.
  unfold start, bind, this. destruct (connected t).
  - unfold trace_of. simpl. bounds.
  - assert (H0 : 0 < MAX_RETRIES) by (unfold MAX_RETRIES; lia).
    destruct (start_loop_bounded script 0 t H0) as [H1 [H2 [H3 _]]].
    destruct (start_loop script 0 t) as [[r t'] tr].
    unfold trace_of in *. simpl in *. unfold MAX_RETRIES in *.
    repeat split; try lia. exact H3.
Qed.

Lemma start_loop_state (script : list ConnectOutcome) :
  forall (n : nat) (t : WebSocketMCPTransport),
  n < MAX_RETRIES ->
  connected t = false ->
  match result_of (start_loop script n t) with
  | Returned _ =>
      connected (state_of (start_loop script n t)) = true /\
      holds_socket (state_of (start_loop script n t)) = true
  | _ => connected (state_of (start_loop script n t)) = false
  end.
Proof.
  induction script as [|o script IH]; intros n t Hn Hc.
  - rewrite start_loop_nil by exact Hn. exact Hc.
  - rewrite start_loop_step by exact Hn.
    destruct (_connect_any o t) as [r [tr [H [_ [_ [_ Hr]]]]]]. rewrite H.
    assert (Hc' : connected (after_attempt o t) = false)
      by (rewrite connected_after_attempt; exact Hc).
    destruct r as [u|e|].
    + destruct u. destruct (Hr eq_refl) as [s [-> _]].
      unfold result_of, state_of. simpl. split; reflexivity.
    + destruct (S n =? MAX_RETRIES) eqn:Heq.
      * exact Hc'.
      * apply Nat.eqb_neq in Heq.
        assert (Hn' : S n < MAX_RETRIES) by lia.
        specialize (IH (S n) (after_attempt o t) Hn' Hc').
        destruct (start_loop script (S n) (after_attempt o t)) as [[r t2] tr2].
        exact IH.
    + exact Hc'.
Qed.

(** X2. A run of [start] on a transport that is not connected ends with
    [connected] set exactly when it returns, and then a socket is stored;
    when it throws or never settles the transport is still not connected. *)
Theorem start_connects_exactly_on_success (script : list ConnectOutcome)
  (t : WebSocketMCPTransport) :
  connected t = false ->
  (result_of (start script t) = Returned tt <->
   connected (state_of (start script t)) = true) /\
  (connected (state_of (start script t)) = true ->
   holds_socket (state_of (start script t)) = true).
Proof.
  intros Hc. unfold start, bind, this. rewrite Hc.
  assert (H0 : 0 < MAX_RETRIES) by (unfold MAX_RETRIES; lia).
  pose proof (start_loop_state script 0 t H0 Hc) as H.
  destruct (start_loop script 0 t) as [[r t'] tr].
  unfold result_of, state_of in *. simpl in *.
  destruct r as [u|e|].
  - destruct u, H as [H1 H2]. split; [split; auto|auto].
  - split; [split|]; intros H'; try discriminate; congruence.
  - split; [split|]; intros H'; try discriminate; congruence.
Qed.

(** X3. [start] on a transport that is connected does nothing at all, so a
    second [start] after one that succeeded constructs no socket whatever
    the script offers. *)
Theorem start_again_does_nothing (t : WebSocketMCPTransport)
  (fails : list ConnectOutcome) (s : Socket) (rest again : list ConnectOutcome) :
  connected t = false ->
  length fails < 3 ->
  Forall (fun o => rejection (onerror t) o <> None) fails ->
  exists t1 tr,
    start (fails ++ SocketOpens s :: rest) t = (Returned tt, t1, tr) /\
    start again t1 = (Returned tt, t1, []).
Proof.
  intros Hc Hlen Hall.
  unfold start at 1. unfold bind, this. rewrite Hc.
  rewrite (start_loop_retries fails _ 0 t Hall) by (unfold MAX_RETRIES; lia).
  rewrite start_loop_open by (unfold MAX_RETRIES; lia).
  do 2 eexists. split; [reflexivity|]. reflexivity.
Qed.

(** X4. When the consumer's error callback throws while a connect attempt
    fails with an error event, the promise of that attempt is never
    rejected: [start] stays pending after this one attempt, makes no retry
    and sets no timer, and the exception leaves the socket's handler
    uncaught. *)
Theorem throwing_error_callback_stalls_start (t : WebSocketMCPTransport)
  (cb : Exn -> CallbackResult) (s : Socket) (cause x : Exn)
  (rest : list ConnectOutcome) :
  connected t = false ->
  onerror t = Some cb ->
  cb (connection_error cause) = CbThrows x ->
  start (SocketErrors s cause :: rest) t =
  (Pending, set_socket (Some s) t,
   [construction t; CallOnError (connection_error cause); Uncaught x]).
Proof.
  intros Hc Hcb Hx. unfold start, bind, this. rewrite Hc.
  rewrite start_loop_step by (unfold MAX_RETRIES; lia).
  unfold _connect, construction, socket_onerror, call_onerror, bind, this,
    emit, modify, ret.
  simpl. rewrite Hcb. simpl. rewrite Hx. reflexivity.
Qed.

(** ** The loop of [send] on any script *)

Lemma attempt_trace_writes (s : Socket) (data : string) (a : SendAttempt) :
  waits (attempt_trace s data a) = [] /\
  error_reports (attempt_trace s data a) = [] /\
  length (socket_writes (attempt_trace s data a)) <= 1 /\
  Forall (eq (s, data)) (socket_writes (attempt_trace s data a)).
Proof.
  unfold attempt_trace. destruct (negb (ReadyState_eqb (ready a) OPEN)); simpl;
    bounds.
Qed.

(** One iteration of the loop of [send] on a transport that holds socket
    [s]. *)
Lemma send_loop_step (message : JSONRPCMessage) (a : SendAttempt)
  (script : list SendAttempt) (n : nat) (t : WebSocketMCPTransport) (s : Socket) :
  socket t = Some s ->
  n < MAX_RETRIES ->
  send_loop message (a :: script) n t =
  match attempt_error a with
  | None => (Returned tt, t, [SocketSend s (JSON_stringify message)])
  | Some e =>
      if S n =? MAX_RETRIES then
        (Threw (final_throw (onerror t) e), t,
         attempt_trace s (JSON_stringify message) a ++ final_report (onerror t) e)
      else
        match send_loop message script (S n) t with
        | (r, t', tr) =>
            (r, t', attempt_trace s (JSON_stringify message) a ++
                    Delay RETRY_DELAY_MS :: tr)
        end
  end.
Proof.
  intros Hs Hn. destruct (attempt_error a) as [e|] eqn:He.
  - destruct (S n =? MAX_RETRIES) eqn:Heq.
    + rewrite send_loop_cons.
      assert (Hlt : (n <? MAX_RETRIES) = true) by (apply Nat.ltb_lt; lia).
      rewrite Hlt, Heq. unfold try_catch.
      rewrite (send_attempt_failed message a t s e Hs He).
      rewrite (attempt_error_is_Error a e He).
      unfold call_onerror, final_throw, final_report, bind, this, emit, throw.
      simpl. destruct (onerror t) as [cb|]; simpl.
      * destruct (cb e); reflexivity.
      * reflexivity.
    + apply Nat.eqb_neq in Heq.
      apply (send_loop_retry message a script n t s e Hs He). lia.
  - apply (send_loop_done message a script n t s Hs He Hn).
Qed.

Lemma send_loop_nil (message : JSONRPCMessage) (n : nat)
  (t : WebSocketMCPTransport) :
  n < MAX_RETRIES -> send_loop message [] n t = (Pending, t, []).
Proof.
  intros Hn. unfold send_loop.
  assert (Hlt : (n <? MAX_RETRIES) = true) by (apply Nat.ltb_lt; lia).
  rewrite Hlt. reflexivity.
Qed.

Lemma final_report_reports (cb : option (Exn -> CallbackResult)) (e : Exn) :
  waits (final_report cb e) = [] /\
  socket_writes (final_report cb e) = [] /\
  length (error_reports (final_report cb e)) <= 1.
Proof. destruct cb; simpl; bounds. Qed.

Lemma send_loop_bounded (message : JSONRPCMessage) (t : WebSocketMCPTransport)
  (s : Socket) (script : list SendAttempt) :
  socket t = Some s ->
  forall n,
  n < MAX_RETRIES ->
  state_of (send_loop message script n t) = t /\
  length (socket_writes (trace_of (send_loop message script n t))) + n
    <= MAX_RETRIES /\
  Forall (eq (s, JSON_stringify message))
    (socket_writes (trace_of (send_loop message script n t))) /\
  length (waits (trace_of (send_loop message script n t))) + S n
    <= MAX_RETRIES /\
  Forall (eq RETRY_DELAY_MS) (waits (trace_of (send_loop message script n t))) /\
  length (error_reports (trace_of (send_loop message script n t))) <= 1.
Proof.
  intros Hs. induction script as [|a script IH]; intros n Hn.
  - rewrite send_loop_nil by exact Hn. unfold state_of, trace_of. simpl. bounds.
  - rewrite (send_loop_step message a script n t s Hs Hn).
    destruct (attempt_trace_writes s (JSON_stringify message) a)
      as [Aw [Ae [Al Af]]].
    destruct (attempt_error a) as [e|].
    + destruct (S n =? MAX_RETRIES) eqn:Heq.
      * destruct (final_report_reports (onerror t) e) as [Fw [Fs Fe]].
        unfold state_of, trace_of. simpl.
        rewrite socket_writes_app, waits_app, error_reports_app.
        rewrite Aw, Ae, Fw, Fs, app_nil_r. simpl.
        repeat split; try lia; try assumption. constructor.
      * apply Nat.eqb_neq in Heq.
        assert (Hn' : S n < MAX_RETRIES) by lia.
        destruct (IH (S n) Hn') as [I0 [I1 [I2 [I3 [I4 I5]]]]].
        destruct (send_loop message script (S n) t) as [[r t'] tr].
        unfold state_of, trace_of in *. simpl in *.
        rewrite socket_writes_app, waits_app, error_reports_app. simpl.
        rewrite Aw, Ae, length_app. simpl.
        repeat split; try lia; try assumption.
        -- apply Forall_app. split; assumption.
        -- constructor; [reflexivity|assumption].
    + unfold state_of, trace_of. simpl. bounds.
Qed.

(** X5. Whatever the socket does and however long the script is, a run of
    [send] leaves the transport object as it was, and every frame it hands
    to a socket is the serialised message, written to the socket that the
    transport holds. *)
Theorem send_writes_only_the_message (message : JSONRPCMessage)
  (script : list SendAttempt) (t : WebSocketMCPTransport) :
  state_of (send message script t) = t /\
  forall frame,
    In frame (socket_writes (trace_of (send message script t))) ->
    socket t = Some (fst frame) /\ snd frame = JSON_stringify message.
Proof.
  unfold send, bind, this.
  destruct (socket t) as [s|] eqn:Hs; [|split; [reflexivity|intros f []]].
  destruct (connected t); simpl; [|split; [reflexivity|intros f []]].
  assert (H0 : 0 < MAX_RETRIES) by (unfold MAX_RETRIES; lia).
  destruct (send_loop_bounded message t s script Hs 0 H0) as [I0 [_ [I2 _]]].
  destruct (send_loop message script 0 t) as [[r t'] tr].
  unfold state_of, trace_of in *. simpl in *. split; [exact I0|].
  intros frame Hin. rewrite Forall_forall in I2.
  rewrite <- (I2 frame Hin). split; reflexivity.
Qed.

(** X6. Whatever the socket does and however long the script is, a run of
    [send] writes at most 3 frames, waits at most twice, each time for
    1000 ms, and calls the error callback at most once. *)
Theorem send_is_bounded (message : JSONRPCMessage) (script : list SendAttempt)
  (t : WebSocketMCPTransport) :
  length (socket_writes (trace_of (send message script t))) <= 3 /\
  length (waits (trace_of (send message script t))) <= 2 /\
  Forall (eq 1000) (waits (trace_of (send message script t))) /\
  length (error_reports (trace_of (send message script t))) <= 1.
Proof.
  unfold send, bind, this.
  destruct (socket t) as [s|] eqn:Hs; [|unfold trace_of; simpl; bounds].
  destruct (connected t); simpl; [|unfold trace_of; simpl; bounds].
  assert (H0 : 0 < MAX_RETRIES) by (unfold MAX_RETRIES; lia).
  destruct (send_loop_bounded message t s script Hs 0 H0)
    as [_ [I1 [_ [I3 [I4 I5]]]]].
  destruct (send_loop message script 0 t) as [[r t'] tr].
  unfold trace_of in *. simpl in *. unfold MAX_RETRIES in *.
  repeat split; try lia; assumption.
Qed.

(** X7. When the third attempt of [send] fails and the consumer's error
    callback throws, [send] throws what the callback threw, not the send
    error; when no error callback is registered, [send] throws the send
    error and nothing is reported. *)
Theorem send_third_failure_and_the_error_callback (message : JSONRPCMessage)
  (t : WebSocketMCPTransport) (s : Socket) (a1 a2 a3 : SendAttempt)
  (rest : list SendAttempt) (e : Exn) :
  socket t = Some s ->
  connected t = true ->
  attempt_error a1 <> None ->
  attempt_error a2 <> None ->
  attempt_error a3 = Some e ->
  (forall cb x,
     onerror t = Some cb ->
     cb e = CbThrows x ->
     send message (a1 :: a2 :: a3 :: rest) t =
     (Threw x, t,
      failed_sends s (JSON_stringify message) [a1; a2] ++
      attempt_trace s (JSON_stringify message) a3 ++ [CallOnError e])) /\
  (onerror t = None ->
   send message (a1 :: a2 :: a3 :: rest) t =
   (Threw e, t,
    failed_sends s (JSON_stringify message) [a1; a2] ++
    attempt_trace s (JSON_stringify message) a3)).
Proof.
  intros Hs Hc H1 H2 H3.
  assert (Hall : Forall (fun a => attempt_error a <> None) [a1; a2])
    by (repeat constructor; assumption).
  assert (Hrun : send message (a1 :: a2 :: a3 :: rest) t =
                 (Threw (final_throw (onerror t) e), t,
                  failed_sends s (JSON_stringify message) [a1; a2] ++
                  attempt_trace s (JSON_stringify message) a3 ++
                  final_report (onerror t) e)).
  { unfold send, bind, this. rewrite Hs, Hc. cbn [negb].
    change (a1 :: a2 :: a3 :: rest) with ([a1; a2] ++ a3 :: rest).
    rewrite (send_loop_retries message [a1; a2] _ t s Hs Hall 0)
      by (unfold MAX_RETRIES; cbn [length]; lia).
    rewrite (send_loop_step message a3 rest _ t s Hs)
      by (unfold MAX_RETRIES; cbn [length]; lia).
    rewrite H3. reflexivity. }
  split.
  - intros cb x Hcb Hx. rewrite Hrun. unfold final_throw, final_report.
    rewrite Hcb, Hx. reflexivity.
  - intros Hnone. rewrite Hrun. unfold final_throw, final_report.
    rewrite Hnone, app_nil_r. reflexivity.
Qed.

Lemma send_loop_unopened (message : JSONRPCMessage) (t : WebSocketMCPTransport)
  (s : Socket) (script : list SendAttempt) :
  socket t = Some s ->
  Forall (fun a => ReadyState_eqb (ready a) OPEN = false) script ->
  forall n,
  n < MAX_RETRIES ->
  socket_writes (trace_of (send_loop message script n t)) = [] /\
  result_of (send_loop message script n t) <> Returned tt.
Proof.
  intros Hs Hall. induction Hall as [|a script Ha Hall IH]; intros n Hn.
  - rewrite send_loop_nil by exact Hn. split; [reflexivity|discriminate].
  - rewrite (send_loop_step message a script n t s Hs Hn).
    unfold attempt_error, attempt_trace. rewrite Ha. cbn [negb].
    destruct (S n =? MAX_RETRIES) eqn:Heq.
    + destruct (final_report_reports (onerror t) socket_not_open) as [_ [Fs _]].
      unfold trace_of, result_of. simpl. rewrite Fs.
      split; [reflexivity|discriminate].
    + apply Nat.eqb_neq in Heq.
      assert (Hn' : S n < MAX_RETRIES) by lia.
      destruct (IH (S n) Hn') as [I1 I2].
      destruct (send_loop message script (S n) t) as [[r t'] tr].
      unfold trace_of, result_of in *. simpl in *. split; assumption.
Qed.

(** X8. When no attempt finds the socket in the OPEN state, [send] hands
    nothing to the socket and does not return normally. *)
Theorem send_never_writes_to_a_socket_that_is_not_open
  (message : JSONRPCMessage) (script : list SendAttempt)
  (t : WebSocketMCPTransport) :
  Forall (fun a => ReadyState_eqb (ready a) OPEN = false) script ->
  socket_writes (trace_of (send message script t)) = [] /\
  result_of (send message script t) <> Returned tt.
Proof.
  intros Hall. unfold send, bind, this.
  destruct (socket t) as [s|] eqn:Hs; [|split; [reflexivity|discriminate]].
  destruct (connected t); simpl; [|split; [reflexivity|discriminate]].
  assert (H0 : 0 < MAX_RETRIES) by (unfold MAX_RETRIES; lia).
  destruct (send_loop_unopened message t s script Hs Hall 0 H0) as [I1 I2].
  destruct (send_loop message script 0 t) as [[r t'] tr].
  unfold trace_of, result_of in *. simpl in *. split; assumption.
Qed.

(** ** After [close] *)

(** Whether or not [close] runs to its end, it leaves the transport not
    connected and the abort signal raised. *)
Lemma close_disconnects (env : CloseEnv) (t : WebSocketMCPTransport) :
  connected (state_of (close env t)) = false /\
  aborted (abortController (state_of (close env t))) = true.
Proof.
  destruct t as [sock u conn ab hd oc oe om]. destruct env as [rs th].
  unfold close, socket_close, call_onclose, state_of, bind, this, modify, emit, ret.
  destruct oc as [cb|]; [destruct (cb tt) eqn:E|];
    (destruct sock as [s|]; [destruct rs; destruct th|]); simpl; rewrite ?E; simpl;
    split; reflexivity.
Qed.

Lemma send_without_connection (message : JSONRPCMessage)
  (script : list SendAttempt) (t : WebSocketMCPTransport) :
  connected t = false ->
  send message script t = (Threw not_connected, t, []).
Proof.
  intros H. unfold send, bind, this. rewrite H.
  destruct (socket t); reflexivity.
Qed.

(** X9. After [close], however it ended, [send] is refused with the
    [Not connected] error and writes nothing. *)
Theorem send_after_close_is_refused (env : CloseEnv) (t : WebSocketMCPTransport)
  (message : JSONRPCMessage) (script : list SendAttempt) :
  send message script (state_of (close env t)) =
  (Threw not_connected, state_of (close env t), []).
Proof.
  apply send_without_connection. apply (close_disconnects env t).
Qed.

(** X10. The abort controller is created once and never replaced: after
    [close], every socket that a later [start] constructs is given a signal
    that is already aborted, and [start] does construct one as soon as the
    script offers an outcome. *)
Theorem start_after_close_passes_aborted_signal (env : CloseEnv)
  (t : WebSocketMCPTransport) (o : ConnectOutcome) (rest : list ConnectOutcome) :
  Forall (eq true)
    (signals (trace_of (start (o :: rest) (state_of (close env t))))) /\
  signals (trace_of (start (o :: rest) (state_of (close env t)))) <> [].
Proof.
  destruct (close_disconnects env t) as [Hc Ha].
  unfold start, bind, this. rewrite Hc.
  assert (H0 : 0 < MAX_RETRIES) by (unfold MAX_RETRIES; lia).
  destruct (start_loop_bounded (o :: rest) 0 (state_of (close env t)) H0)
    as [_ [_ [_ H4]]].
  rewrite Ha in H4.
  assert (Hne : signals (trace_of (start_loop (o :: rest) 0
                                     (state_of (close env t)))) <> []).
  { rewrite start_loop_step by exact H0.
    destruct (_connect_any o (state_of (close env t))) as [r [tr [H _]]].
    rewrite H. destruct r as [u|e|]; try (unfold trace_of; simpl; discriminate).
    destruct (1 =? MAX_RETRIES).
    - unfold trace_of; simpl; discriminate.
    - destruct (start_loop rest 1 (after_attempt o (state_of (close env t))))
        as [[r t2] tr2].
      unfold trace_of; simpl; discriminate. }
  destruct (start_loop (o :: rest) 0 (state_of (close env t))) as [[r t'] tr].
  unfold trace_of in *. simpl in *. split; assumption.
Qed.

Lemma close_socket_closes (env : CloseEnv) (t : WebSocketMCPTransport) :
  socket_closes (trace_of (close env t)) =
    match socket t with
    | Some s => if ReadyState_eqb (close_readyState env) OPEN then [s] else []
    | None => []
    end.
Proof.
  destruct t as [sock u conn ab hd oc oe om]. destruct env as [rs th].
  unfold close, socket_close, call_onclose, trace_of, bind, this, modify,
    emit, ret.
  destruct oc as [cb|]; [destruct (cb tt) eqn:E|];
    (destruct sock as [s|]; [destruct rs; destruct th|]); simpl; rewrite ?E;
    reflexivity.
Qed.

Lemma close_discards_socket (env : CloseEnv) (t : WebSocketMCPTransport) :
  close_throws env = None -> socket (state_of (close env t)) = None.
Proof.
  destruct t as [sock u conn ab hd oc oe om]. destruct env as [rs th].
  simpl. intros ->.
  unfold close, socket_close, call_onclose, state_of, bind, this, modify,
    emit, ret.
  destruct oc as [cb|]; [destruct (cb tt) eqn:E|];
    (destruct sock as [s|]; [destruct rs|]); simpl; rewrite ?E; reflexivity.
Qed.

(** X11. [close] calls the socket's own [close()] on the stored socket
    when that socket is in the OPEN state, and in no other case; a [close]
    that follows finds no socket and calls it on nothing. *)
Theorem close_closes_an_open_socket_once (env env' : CloseEnv)
  (t : WebSocketMCPTransport) :
  socket_closes (trace_of (close env t)) =
    match socket t with
    | Some s => if ReadyState_eqb (close_readyState env) OPEN then [s] else []
    | None => []
    end /\
  (close_throws env = None ->
   socket_closes (trace_of (close env' (state_of (close env t)))) = []).
Proof.
  split; [apply close_socket_closes|].
  intros Hth. rewrite close_socket_closes, (close_discards_socket env t Hth).
  reflexivity.
Qed.

(** ** Socket events *)

Lemma socket_onclose_run (t : WebSocketMCPTransport) :
  state_of (socket_onclose t) = set_connected false t /\
  trace_of (socket_onclose t) =
    match onclose t with Some _ => [CallOnClose] | None => [] end.
Proof.
  unfold socket_onclose, call_onclose, state_of, trace_of, bind, this, modify,
    emit, ret.
  simpl. destruct (onclose t) as [cb|]; simpl; [|split; reflexivity].
  destruct (cb tt); split; reflexivity.
Qed.

(** X12. The socket's close event starts no reconnection: its handler
    constructs no socket and sets no timer, and [send] is refused
    afterwards.  An explicit [start] reconnects: when its first attempt
    opens, the transport is connected again on the new socket. *)
Theorem reconnection_needs_an_explicit_start (t : WebSocketMCPTransport)
  (message : JSONRPCMessage) (script : list SendAttempt)
  (s : Socket) (rest : list ConnectOutcome) :
  connect_attempts (trace_of (socket_onclose t)) = 0 /\
  waits (trace_of (socket_onclose t)) = [] /\
  send message script (state_of (socket_onclose t)) =
    (Threw not_connected, state_of (socket_onclose t), []) /\
  exists t' tr,
    start (SocketOpens s :: rest) (state_of (socket_onclose t)) =
      (Returned tt, t', tr) /\
    connected t' = true /\ socket t' = Some s /\ connect_attempts tr = 1.
Proof.
  destruct (socket_onclose_run t) as [Hst Htr]. rewrite Hst, Htr.
  split; [destruct (onclose t); reflexivity|].
  split; [destruct (onclose t); reflexivity|].
  split; [apply send_without_connection; reflexivity|].
  unfold start, bind, this. cbn [connected set_connected].
  rewrite start_loop_open by (unfold MAX_RETRIES; lia).
  do 2 eexists. split; [reflexivity|]. repeat split.
Qed.


(** ** The receive path on any payload *)

Lemma call_onerror_run (e : Exn) (t : WebSocketMCPTransport) :
  state_of (call_onerror e t) = t /\
  (result_of (call_onerror e t) = Returned tt \/
   exists ecb x,
     onerror t = Some ecb /\ ecb e = CbThrows x /\
     result_of (call_onerror e t) = Threw x).
Proof.
  unfold call_onerror, state_of, result_of, bind, this, emit, ret. simpl.
  destruct (onerror t) as [ecb|]; simpl; [|split; [reflexivity|left; reflexivity]].
  destruct (ecb e) as [|x] eqn:E; simpl; split; try reflexivity.
  - left. reflexivity.
  - right. exists ecb, x. repeat split. exact E.
Qed.

Lemma message_handler_state (data : MessageData) (t : WebSocketMCPTransport) :
  state_of (socket_onmessage data t) = t.
Proof.
  destruct (decode data) as [cause|m] eqn:Hd.
  - rewrite (socket_onmessage_undecodable data t cause Hd).
    apply call_onerror_run.
  - rewrite (socket_onmessage_decoded data t m Hd).
    unfold try_catch, call_onmessage, bind, this, emit. simpl.
    destruct (onmessage t) as [mcb|]; simpl; [|reflexivity].
    destruct (mcb m) as [|y]; simpl; [reflexivity|].
    pose proof (proj1 (call_onerror_run (parse_error y) t)) as Hs.
    destruct (call_onerror (parse_error y) t) as [[r t'] tr]. exact Hs.
Qed.

(** X14. The handler of message events never changes the transport object,
    whatever the payload and whatever the callbacks do; it returns, unless
    the consumer's error callback throws, in which case that exception leaves
    the handler. *)
Theorem message_handler_is_contained (data : MessageData)
  (t : WebSocketMCPTransport) :
  state_of (socket_onmessage data t) = t /\
  (result_of (socket_onmessage data t) = Returned tt \/
   exists ecb e x,
     onerror t = Some ecb /\ ecb e = CbThrows x /\
     result_of (socket_onmessage data t) = Threw x).
Proof.
  destruct (decode data) as [cause|m] eqn:Hd.
  - rewrite (socket_onmessage_undecodable data t cause Hd).
    destruct (call_onerror_run (parse_error cause) t) as [Hs [Hr|[ecb [x Hx]]]].
    + split; [exact Hs|left; exact Hr].
    + split; [exact Hs|right; exists ecb, (parse_error cause), x; exact Hx].
  - rewrite (socket_onmessage_decoded data t m Hd).
    unfold try_catch, call_onmessage, bind, this, emit. simpl.
    destruct (onmessage t) as [mcb|]; simpl;
      [|split; [reflexivity|left; reflexivity]].
    destruct (mcb m) as [|y]; simpl; [split; [reflexivity|left; reflexivity]|].
    destruct (call_onerror_run (parse_error y) t) as [Hs [Hr|[ecb [x Hx]]]].
    + destruct (call_onerror (parse_error y) t) as [[r t'] tr].
      unfold state_of, result_of in *. simpl in *.
      split; [exact Hs|left; exact Hr].
    + destruct (call_onerror (parse_error y) t) as [[r t'] tr].
      unfold state_of, result_of in *. simpl in *.
      split; [exact Hs|right; exists ecb, (parse_error y), x; exact Hx].
Qed.

(** X15. With a message callback and an error callback that return, a
    sequence of message events is handled to its end without changing the
    transport: the payloads that decode reach the message callback in
    arrival order, and the others reach the error callback, as parse errors,
    in arrival order. *)
Theorem receive_delivers_and_reports_in_order (t : WebSocketMCPTransport)
  (mcb : JSONRPCMessage -> CallbackResult) (ecb : Exn -> CallbackResult)
  (events : list MessageData) :
  onmessage t = Some mcb ->
  onerror t = Some ecb ->
  (forall m, mcb m = CbReturns) ->
  (forall e, ecb e = CbReturns) ->
  exists tr,
    receive events t = (Returned tt, t, tr) /\
    deliveries tr = decoded events /\
    error_reports tr = undecoded events.
Proof.
  intros Hm He Hmr Her.
  induction events as [|data later [tr [IH [D U]]]]; cbn [receive decoded undecoded].
  - exists []. repeat split.
  - unfold bind. destruct (decode data) as [cause|m] eqn:Hd.
    + rewrite (socket_onmessage_undecodable data t cause Hd).
      unfold call_onerror, bind, this, emit. simpl. rewrite He. simpl.
      rewrite Her. simpl. rewrite IH.
      eexists. split; [reflexivity|]. simpl. rewrite D, U. split; reflexivity.
    + rewrite (socket_onmessage_decoded data t m Hd).
      unfold try_catch, call_onmessage, bind, this, emit. simpl.
      rewrite Hm. simpl. rewrite Hmr. simpl. rewrite IH.
      eexists. split; [reflexivity|]. simpl. rewrite D, U. split; reflexivity.
Qed.

(** X16. With no message callback and no error callback registered, message
    events are dropped without a trace, whether they decode or not. *)
Theorem receive_without_callbacks_is_silent (t : WebSocketMCPTransport)
  (events : list MessageData) :
  onmessage t = None ->
  onerror t = None ->
  receive events t = (Returned tt, t, []).
Proof.
  intros Hm He.
  induction events as [|data later IH]; cbn [receive]; [reflexivity|].
  unfold bind. destruct (decode data) as [cause|m] eqn:Hd.
  - rewrite (socket_onmessage_undecodable data t cause Hd).
    unfold call_onerror, bind, this. simpl. rewrite He. simpl.
    rewrite IH. reflexivity.
  - rewrite (socket_onmessage_decoded data t m Hd).
    unfold try_catch, call_onmessage, bind, this. simpl. rewrite Hm. simpl.
    rewrite IH. reflexivity.
Qed.

(** X17. The shapes of a payload: a frame that decodes to a message is
    delivered alike when it arrives as a buffer, as an array buffer with the
    same bytes, or as the string that is their UTF-8 text; when the same
    bytes arrive as the only chunk of an array of buffers nothing is
    delivered and the error callback gets the parse error that wraps the
    [Unsupported data type] error. *)
Theorem payload_shapes (t : WebSocketMCPTransport) (bytes : list byte)
  (m : JSONRPCMessage) (mcb : JSONRPCMessage -> CallbackResult)
  (ecb : Exn -> CallbackResult) :
  decode (DataBuffer bytes) = inr m ->
  onmessage t = Some mcb ->
  onerror t = Some ecb ->
  deliveries (trace_of (socket_onmessage (DataBuffer bytes) t)) = [m] /\
  deliveries (trace_of (socket_onmessage (DataArrayBuffer bytes) t)) = [m] /\
  deliveries
    (trace_of (socket_onmessage (DataString (Buffer_toString_utf8 bytes)) t)) =
    [m] /\
  deliveries (trace_of (socket_onmessage (DataBufferArray [bytes]) t)) = [] /\
  error_reports (trace_of (socket_onmessage (DataBufferArray [bytes]) t)) =
    [parse_error unsupported_data].
Proof.
  intros Hd Hm He.
  assert (Hb := proj2 (socket_onmessage_delivers (DataBuffer bytes) t m mcb Hd Hm)).
  assert (Ha := proj2 (socket_onmessage_delivers (DataArrayBuffer bytes) t m mcb
                         Hd Hm)).
  assert (Hs := proj2 (socket_onmessage_delivers
                         (DataString (Buffer_toString_utf8 bytes)) t m mcb Hd Hm)).
  split; [exact Hb|]. split; [exact Ha|]. split; [exact Hs|].
  rewrite (socket_onmessage_undecodable (DataBufferArray [bytes]) t
             unsupported_data eq_refl).
  unfold call_onerror, trace_of, bind, this, emit. simpl. rewrite He. simpl.
  destruct (ecb (parse_error unsupported_data)); split; reflexivity.
Qed.

(** ** The invariant of the connection state *)

Lemma send_keeps_state (message : JSONRPCMessage) (script : list SendAttempt)
  (t : WebSocketMCPTransport) :
  state_of (send message script t) = t.
Proof.
  unfold send, bind, this.
  destruct (socket t) as [s|] eqn:Hs; [|reflexivity].
  destruct (connected t); simpl; [|reflexivity].
  assert (H0 : 0 < MAX_RETRIES) by (unfold MAX_RETRIES; lia).
  destruct (send_loop_bounded message t s script Hs 0 H0) as [I0 _].
  destruct (send_loop message script 0 t) as [[r t'] tr]. exact I0.
Qed.

(** X18. A transport that says it is connected holds a socket, and every
    method and every socket handler keeps it so, however it ends. *)
Theorem connected_transport_holds_a_socket (t : WebSocketMCPTransport) :
  coherent t = true ->
  (forall script, coherent (state_of (start script t)) = true) /\
  (forall message script, coherent (state_of (send message script t)) = true) /\
  (forall env, coherent (state_of (close env t)) = true) /\
  coherent (state_of (socket_onclose t)) = true /\
  (forall cause, coherent (state_of (socket_onerror cause t)) = true) /\
  (forall data, coherent (state_of (socket_onmessage data t)) = true).
Proof.
  intros Hco. repeat split.
  - intros script. unfold start, bind, this.
    destruct (connected t) eqn:Hc; [exact Hco|].
    assert (H0 : 0 < MAX_RETRIES) by (unfold MAX_RETRIES; lia).
    pose proof (start_loop_state script 0 t H0 Hc) as H.
    destruct (start_loop script 0 t) as [[r t'] tr].
    unfold result_of, state_of, coherent in *. simpl in *.
    destruct r as [u|e|].
    + destruct H as [H1 H2]. rewrite H1, H2. reflexivity.
    + rewrite H. reflexivity.
    + rewrite H. reflexivity.
  - intros message script. rewrite send_keeps_state. exact Hco.
  - intros env. unfold coherent.
    rewrite (proj1 (close_disconnects env t)). reflexivity.
  - rewrite (proj1 (socket_onclose_run t)). reflexivity.
  - intros cause.
    unfold socket_onerror, bind, ret.
    destruct (call_onerror_run (connection_error cause) t) as [Hs _].
    destruct (call_onerror (connection_error cause) t) as [[[u|e|] t'] tr];
      unfold state_of in *; simpl in *; rewrite Hs; exact Hco.
  - intros data. rewrite message_handler_state. exact Hco.
Qed.

(** ** The address given to the constructor *)

(** X19. The rewriting of the address: an address that does not begin with
    the letters [http], in any case, is passed on unchanged; one that does
    loses these four letters for [ws] and keeps all that follows; the result
    never begins with [http], so rewriting twice is rewriting once. *)
Theorem replace_http_prefix_normalises (address : string) :
  (begins_with_http address = false -> replace_http_prefix address = address) /\
  (begins_with_http address = true ->
   exists c1 c2 c3 c4 rest,
     address = String c1 (String c2 (String c3 (String c4 rest))) /\
     replace_http_prefix address = String "w" (String "s" rest)) /\
  begins_with_http (replace_http_prefix address) = false /\
  replace_http_prefix (replace_http_prefix address) = replace_http_prefix address.
Proof.
  assert (Hun : forall a, begins_with_http a = false -> replace_http_prefix a = a).
  { intros a. unfold begins_with_http, replace_http_prefix.
    destruct a as [|c1 [|c2 [|c3 [|c4 rest]]]]; try reflexivity.
    intros ->. reflexivity. }
  assert (Hno : begins_with_http (replace_http_prefix address) = false).
  { unfold replace_http_prefix.
    destruct address as [|c1 [|c2 [|c3 [|c4 rest]]]]; try reflexivity.
    destruct (is_letter "h" "H" c1 && is_letter "t" "T" c2 &&
              is_letter "t" "T" c3 && is_letter "p" "P" c4) eqn:E.
    - simpl. destruct rest as [|r1 [|r2 rest]]; reflexivity.
    - simpl. exact E. }
  split; [apply Hun|]. split; [|split; [exact Hno|apply Hun; exact Hno]].
  unfold begins_with_http, replace_http_prefix.
  destruct address as [|c1 [|c2 [|c3 [|c4 rest]]]]; try discriminate.
  intros ->. exists c1, c2, c3, c4, rest. split; reflexivity.
Qed.

(** ** Calls in sequence *)

(** X23. After a [start] that succeeded, [send] writes to the socket that
    opened, not to a socket of an earlier attempt that failed, and a [close]
    that finds this socket open closes it; [send] is refused after that. *)
Theorem start_send_close (t : WebSocketMCPTransport)
  (fails : list ConnectOutcome) (s : Socket) (rest : list ConnectOutcome)
  (message : JSONRPCMessage) (a : SendAttempt) (more : list SendAttempt)
  (env : CloseEnv) :
  connected t = false ->
  length fails < 3 ->
  Forall (fun o => rejection (onerror t) o <> None) fails ->
  attempt_error a = None ->
  close_readyState env = OPEN ->
  exists t1 tr,
    start (fails ++ SocketOpens s :: rest) t = (Returned tt, t1, tr) /\
    send message (a :: more) t1 =
      (Returned tt, t1, [SocketSend s (JSON_stringify message)]) /\
    socket_closes (trace_of (close env t1)) = [s] /\
    send message (a :: more) (state_of (close env t1)) =
      (Threw not_connected, state_of (close env t1), []).
Proof.
  intros Hc Hlen Hall Ha Henv.
  unfold start at 1. unfold bind at 1. unfold this at 1. rewrite Hc.
  rewrite (start_loop_retries fails _ 0 t Hall) by (unfold MAX_RETRIES; lia).
  rewrite start_loop_open by (unfold MAX_RETRIES; lia).
  set (t1 := set_connected true (set_socket (Some s) (after_attempts fails t))).
  exists t1. eexists. split; [reflexivity|]. split; [|split].
  - unfold send, bind, this. cbn [socket connected t1 set_connected set_socket negb].
    fold t1.
    rewrite (send_loop_done message a more 0 t1 s eq_refl Ha)
      by (unfold MAX_RETRIES; lia).
    reflexivity.
  - rewrite close_socket_closes, Henv. reflexivity.
  - apply send_without_connection. apply close_disconnects.
Qed.

(** X24. The attempts are counted per call of [start]: after a [start]
    that gave up on three failed attempts, a new [start] tries again, and
    when its first attempt opens the transport is connected on that
    socket. *)
Theorem failed_start_can_be_retried (t : WebSocketMCPTransport)
  (o1 o2 o3 : ConnectOutcome) (rest : list ConnectOutcome) (e1 e2 e3 : Exn)
  (s : Socket) (later : list ConnectOutcome) :
  connected t = false ->
  rejection (onerror t) o1 = Some e1 ->
  rejection (onerror t) o2 = Some e2 ->
  rejection (onerror t) o3 = Some e3 ->
  exists t1 tr1 t2,
    start (o1 :: o2 :: o3 :: rest) t = (Threw e3, t1, tr1) /\
    start (SocketOpens s :: later) t1 = (Returned tt, t2, [construction t1]) /\
    connected t2 = true /\ socket t2 = Some s.
Proof.
  intros Hc H1 H2 H3.
  set (t1 := after_attempt o3 (after_attempt o2 (after_attempt o1 t))).
  assert (Hc1 : connected t1 = false).
  { unfold t1. rewrite !connected_after_attempt. exact Hc. }
  assert (Hrun : exists tr1, start (o1 :: o2 :: o3 :: rest) t = (Threw e3, t1, tr1)).
  { unfold start, bind, this. rewrite Hc.
    rewrite (start_loop_retry o1 _ 0 t e1 H1) by (unfold MAX_RETRIES; lia).
    rewrite <- (onerror_after_attempt o1) in H2, H3.
    rewrite (start_loop_retry o2 _ 1 _ e2 H2) by (unfold MAX_RETRIES; lia).
    rewrite <- (onerror_after_attempt o2) in H3.
    rewrite (start_loop_last o3 _ 2 _ e3 H3) by reflexivity.
    eexists. reflexivity. }
  destruct Hrun as [tr1 Hrun].
  exists t1, tr1, (set_connected true (set_socket (Some s) t1)).
  split; [exact Hrun|]. split; [|split; reflexivity].
  unfold start, bind, this. rewrite Hc1.
  rewrite start_loop_open by (unfold MAX_RETRIES; lia). reflexivity.
Qed.

End MoreProperties.

(** * Properties of the example script *)

Section ExampleProperties.

Import Example.

Lemma closes_app (a b : list Output) : closes (a ++ b) = closes a + closes b.
Proof.
  induction a as [|o a IH]; [reflexivity|].
  destruct o; cbn -[has_example]; rewrite IH; reflexivity.
Qed.


(** X21. [main] calls [client.close()] exactly when every call before it
    returned, and then once: a client whose [tools()] or whose example tool
    throws is created and never closed. *)
Theorem main_closes_the_client_only_on_success (c : Client) :
  closes (snd (main c)) = (if reaches_close c then 1 else 0).
Proof.
  destruct c as [cr li ex cl]. unfold main, reaches_close. cbn -[has_example].
  destruct cr as [e|u]; cbn -[has_example]; [reflexivity|].
  destruct li as [e|tools]; cbn -[has_example]; [reflexivity|].
  destruct (has_example tools); cbn -[has_example].
  - destruct ex as [e|result]; cbn -[has_example]; [reflexivity|].
    destruct cl as [e|u']; reflexivity.
  - destruct cl as [e|u']; reflexivity.
Qed.

(** X22. [main] runs a tool only when the client was created and the
    object that [tools()] returned has the key [example]; it then runs that
    tool once, with the parameters [hello] and [world] and the call id
    [example-call-1]; otherwise it runs no tool. *)
Theorem main_runs_the_example_tool_only_if_listed (c : Client) :
  executions (snd (main c)) =
    match created c, listed c with
    | inr _, inr tools =>
        if has_example tools
        then [("example"%string, example_call)] else []
    | _, _ => []
    end.
Proof.
  destruct c as [cr li ex cl]. unfold main. cbn -[has_example].
  destruct cr as [e|u]; cbn -[has_example]; [reflexivity|].
  destruct li as [e|tools]; cbn -[has_example]; [reflexivity|].
  destruct (has_example tools); cbn -[has_example].
  - destruct ex as [e|result]; cbn -[has_example]; [reflexivity|].
    destruct cl as [e|u']; reflexivity.
  - destruct cl as [e|u']; reflexivity.
Qed.

End ExampleProperties.
(** * The properties at concrete inputs *)

#[local] Existing Instance Demo.platform.

Lemma send_refused_when_not_connected_witness :
  new_WebSocketMCPTransport "http://localhost:8080" None = inr Demo.unstarted /\
  send Demo.ping [Demo.good_write] Demo.unstarted =
  (Threw not_connected, Demo.unstarted, []).
Proof.
  split.
  - reflexivity.
  - apply (send_refused_when_not_connected (P := Demo.platform)).
    left. reflexivity.
Defined.

Lemma start_fails_after_three_attempts_witness :
  exists t' tr,
    start [Demo.error_event 1; Demo.error_event 2; CtorThrows Demo.refused;
           SocketOpens 4] Demo.fresh = (Threw Demo.refused, t', tr) /\
    connect_attempts tr = 3 /\
    schedule tr = [Attempt; Wait 1000; Attempt; Wait 1000; Attempt].
Proof.
  apply (start_fails_after_three_attempts (P := Demo.platform) Demo.fresh
           (Demo.error_event 1) (Demo.error_event 2) (CtorThrows Demo.refused)
           [SocketOpens 4]
           (connection_error Demo.refused) (connection_error Demo.refused)
           Demo.refused); reflexivity.
Defined.

Lemma start_succeeds_within_three_attempts_witness :
  exists t' tr,
    start [Demo.error_event 1; Demo.error_event 2; SocketOpens 3] Demo.fresh =
    (Returned tt, t', tr) /\
    connected t' = true /\
    socket t' = Some 3 /\
    connect_attempts tr = 2 + 1 /\
    schedule tr = retried 2.
Proof.
  apply (start_succeeds_within_three_attempts (P := Demo.platform) Demo.fresh 2
           [Demo.error_event 1; Demo.error_event 2] 3 []).
  - reflexivity.
  - lia.
  - reflexivity.
  - repeat constructor; discriminate.
Defined.

(** C2 at [N = 3]: after three failures the fourth outcome, a socket that
    would open, is never asked for; [start] throws after 3 attempts. *)
Lemma start_makes_no_fourth_attempt :
  let run := start [Demo.error_event 1; Demo.error_event 2; Demo.error_event 3;
                    SocketOpens 4] Demo.fresh in
  result_of run = Threw (connection_error Demo.refused) /\
  result_of run <> Returned tt /\
  connect_attempts (trace_of run) = 3 /\
  connect_attempts (trace_of run) <> 3 + 1 /\
  connected (state_of run) = false.
Proof.
  vm_compute. repeat split; discriminate.
Qed.

Lemma start_reports_every_socket_error_witness :
  error_reports
    (trace_of (start ([Demo.error_event 1; CtorThrows Demo.refused;
                       Demo.error_event 2] ++ [SocketOpens 3]) Demo.fresh)) =
  [connection_error Demo.refused; connection_error Demo.refused] /\
  error_reports
    (trace_of (start ([Demo.error_event 1; CtorThrows Demo.refused] ++
                      SocketOpens 3 :: []) Demo.fresh)) =
  [connection_error Demo.refused].
Proof.
  split.
  - apply (proj1 (start_reports_every_socket_error (P := Demo.platform) Demo.fresh
                    (fun _ => CbReturns)
                    [Demo.error_event 1; CtorThrows Demo.refused; Demo.error_event 2]
                    eq_refl eq_refl
                    ltac:(repeat constructor; discriminate))).
    reflexivity.
  - apply (proj2 (start_reports_every_socket_error (P := Demo.platform) Demo.fresh
                    (fun _ => CbReturns)
                    [Demo.error_event 1; CtorThrows Demo.refused]
                    eq_refl eq_refl
                    ltac:(repeat constructor; discriminate))).
    simpl. lia.
Defined.

(** C5: three attempts that end in error events call the error callback
    three times, the first two for attempts that are not the last. *)
Lemma start_calls_error_callback_three_times :
  let run := start [Demo.error_event 1; Demo.error_event 2; Demo.error_event 3]
               Demo.fresh in
  result_of run = Threw (connection_error Demo.refused) /\
  error_reports (trace_of run) =
    [connection_error Demo.refused; connection_error Demo.refused;
     connection_error Demo.refused] /\
  length (error_reports (trace_of run)) <> 1.
Proof.
  vm_compute. repeat split; discriminate.
Qed.

Lemma send_retries_and_reports_once_witness :
  send Demo.ping [Demo.bad_write; Demo.too_late; Demo.good_write; Demo.bad_write]
    Demo.live =
  (Returned tt, Demo.live,
   failed_sends 1 (Demo.stringify Demo.ping) [Demo.bad_write; Demo.too_late] ++
   [SocketSend 1 (Demo.stringify Demo.ping)]) /\
  exists tr,
    send Demo.ping [Demo.bad_write; Demo.too_late; Demo.bad_write; Demo.good_write]
      Demo.live = (Threw (send_error Demo.broken_pipe), Demo.live, tr) /\
    tr = failed_sends 1 (Demo.stringify Demo.ping) [Demo.bad_write; Demo.too_late] ++
         attempt_trace 1 (Demo.stringify Demo.ping) Demo.bad_write ++
         [CallOnError (send_error Demo.broken_pipe)] /\
    error_reports tr = [send_error Demo.broken_pipe].
Proof.
  destruct (send_retries_and_reports_once (P := Demo.platform) Demo.ping Demo.live 1
              eq_refl eq_refl) as [Hdone Hfail].
  split.
  - apply (Hdone [Demo.bad_write; Demo.too_late] Demo.good_write [Demo.bad_write]).
    + simpl. lia.
    + repeat constructor; discriminate.
    + reflexivity.
  - apply (Hfail Demo.bad_write Demo.too_late Demo.bad_write [Demo.good_write]
             (send_error Demo.broken_pipe) (fun _ => CbReturns));
      try reflexivity; discriminate.
Defined.

Lemma close_calls_back_once_per_call_witness :
  exists t1 tr1 tr2,
    close Demo.open_socket Demo.live = (Returned tt, t1, tr1) /\
    close_calls tr1 = 1 /\
    socket t1 = None /\
    connected t1 = false /\
    close Demo.closed_socket t1 = (Returned tt, t1, tr2) /\
    close_calls tr2 = 1.
Proof.
  apply (close_calls_back_once_per_call (P := Demo.platform)
           Demo.open_socket Demo.closed_socket Demo.live (fun _ => CbReturns));
    reflexivity.
Defined.

(** [close] has no handler for exceptions: what the consumer's close
    callback throws reaches the caller of [close]. *)
Lemma close_throws_what_the_callback_throws :
  result_of (close Demo.open_socket Demo.fussy) = Threw Demo.tantrum /\
  result_of (close Demo.open_socket Demo.fussy) <> Returned tt.
Proof.
  vm_compute. split; [reflexivity|discriminate].
Qed.

Lemma socket_discarded_by_close_only_witness :
  (socket (state_of (close Demo.open_socket Demo.live)) = None /\
   connected (state_of (close Demo.open_socket Demo.live)) = false) /\
  (connected (state_of (socket_onclose Demo.live)) = false /\
   socket (state_of (socket_onclose Demo.live)) = socket Demo.live).
Proof.
  apply (socket_discarded_by_close_only (P := Demo.platform)
           Demo.open_socket Demo.live).
  reflexivity.
Defined.

(** C8: after the socket's close event the transport is disconnected and
    still holds the handle of the socket that closed. *)
Lemma disconnected_transport_keeps_socket :
  connected Demo.live = true /\
  connected (state_of (socket_onclose Demo.live)) = false /\
  socket (state_of (socket_onclose Demo.live)) = Some 1 /\
  socket (state_of (socket_onclose Demo.live)) <> None.
Proof.
  vm_compute. repeat split; discriminate.
Qed.




Lemma close_of_an_open_socket_calls_back_twice_witness :
  exists tr,
    close_then_close_event Demo.open_socket Demo.live =
      (Returned tt, closed Demo.live, tr) /\
    close_calls tr = 2.
Proof.
  apply (close_of_an_open_socket_calls_back_twice (P := Demo.platform)
           Demo.open_socket Demo.live (fun _ => CbReturns));
    reflexivity.
Defined.

(** * The further properties at concrete inputs *)

Lemma start_connects_exactly_on_success_witness :
  (result_of (start [Demo.error_event 1; SocketOpens 2] Demo.fresh) = Returned tt <->
   connected (state_of (start [Demo.error_event 1; SocketOpens 2] Demo.fresh)) = true) /\
  (connected (state_of (start [Demo.error_event 1; SocketOpens 2] Demo.fresh)) = true ->
   holds_socket (state_of (start [Demo.error_event 1; SocketOpens 2] Demo.fresh)) = true).
Proof.
  apply (start_connects_exactly_on_success (P := Demo.platform)). reflexivity.
Defined.

Lemma start_again_does_nothing_witness :
  exists t1 tr,
    start ([Demo.error_event 1] ++ SocketOpens 2 :: []) Demo.fresh =
      (Returned tt, t1, tr) /\
    start [Demo.error_event 3; SocketOpens 4] t1 = (Returned tt, t1, []).
Proof.
  apply (start_again_does_nothing (P := Demo.platform) Demo.fresh
           [Demo.error_event 1] 2 [] [Demo.error_event 3; SocketOpens 4]).
  - reflexivity.
  - simpl. lia.
  - repeat constructor; discriminate.
Defined.

Lemma throwing_error_callback_stalls_start_witness :
  start [SocketErrors 1 Demo.refused; SocketOpens 2] Cases.grumpy_fresh =
  (Pending, set_socket (Some 1) Cases.grumpy_fresh,
   [construction Cases.grumpy_fresh;
    CallOnError (connection_error Demo.refused); Uncaught Demo.tantrum]).
Proof.
  apply (throwing_error_callback_stalls_start (P := Demo.platform)
           Cases.grumpy_fresh (fun _ => CbThrows Demo.tantrum) 1 Demo.refused
           Demo.tantrum [SocketOpens 2]); reflexivity.
Defined.

Lemma send_third_failure_and_the_error_callback_witness :
  send Demo.ping [Demo.bad_write; Demo.too_late; Demo.bad_write] Cases.grumpy =
    (Threw Demo.tantrum, Cases.grumpy,
     failed_sends 1 (Demo.stringify Demo.ping) [Demo.bad_write; Demo.too_late] ++
     attempt_trace 1 (Demo.stringify Demo.ping) Demo.bad_write ++
     [CallOnError (send_error Demo.broken_pipe)]) /\
  send Demo.ping [Demo.bad_write; Demo.too_late; Demo.bad_write] Cases.mute =
    (Threw (send_error Demo.broken_pipe), Cases.mute,
     failed_sends 1 (Demo.stringify Demo.ping) [Demo.bad_write; Demo.too_late] ++
     attempt_trace 1 (Demo.stringify Demo.ping) Demo.bad_write).
Proof.
  split.
  - apply (proj1 (send_third_failure_and_the_error_callback (P := Demo.platform)
                    Demo.ping Cases.grumpy 1 Demo.bad_write Demo.too_late
                    Demo.bad_write [] (send_error Demo.broken_pipe)
                    eq_refl eq_refl ltac:(discriminate) ltac:(discriminate) eq_refl)
             (fun _ => CbThrows Demo.tantrum) Demo.tantrum);
      reflexivity.
  - apply (proj2 (send_third_failure_and_the_error_callback (P := Demo.platform)
                    Demo.ping Cases.mute 1 Demo.bad_write Demo.too_late
                    Demo.bad_write [] (send_error Demo.broken_pipe)
                    eq_refl eq_refl ltac:(discriminate) ltac:(discriminate) eq_refl)).
    reflexivity.
Defined.

Lemma send_never_writes_to_a_socket_that_is_not_open_witness :
  socket_writes
    (trace_of (send Demo.ping [Demo.too_late; Demo.too_late; Demo.too_late]
                 Demo.live)) = [] /\
  result_of (send Demo.ping [Demo.too_late; Demo.too_late; Demo.too_late]
               Demo.live) <> Returned tt.
Proof.
  apply (send_never_writes_to_a_socket_that_is_not_open (P := Demo.platform)).
  repeat constructor.
Defined.

Lemma close_closes_an_open_socket_once_witness :
  socket_closes (trace_of (close Demo.open_socket Demo.live)) = [1] /\
  socket_closes
    (trace_of (close Demo.open_socket
                 (state_of (close Demo.open_socket Demo.live)))) = [].
Proof.
  destruct (close_closes_an_open_socket_once (P := Demo.platform)
              Demo.open_socket Demo.open_socket Demo.live) as [H1 H2].
  split; [exact H1|]. apply H2. reflexivity.
Defined.


Lemma receive_delivers_and_reports_in_order_witness :
  exists tr,
    receive [DataString (Demo.stringify Demo.ping); DataString "not json";
             DataBuffer Cases.pong_bytes; DataBufferArray [Cases.pong_bytes]]
      Demo.live = (Returned tt, Demo.live, tr) /\
    deliveries tr = [Demo.ping; Demo.pong] /\
    error_reports tr =
      [parse_error Demo.syntax_error; parse_error unsupported_data].
Proof.
  apply (receive_delivers_and_reports_in_order (P := Demo.platform) Demo.live
           (fun _ => CbReturns) (fun _ => CbReturns)
           [DataString (Demo.stringify Demo.ping); DataString "not json";
            DataBuffer Cases.pong_bytes; DataBufferArray [Cases.pong_bytes]]);
    reflexivity.
Defined.

Lemma receive_without_callbacks_is_silent_witness :
  receive [DataString (Demo.stringify Demo.ping); DataString "not json"]
    Demo.unstarted = (Returned tt, Demo.unstarted, []).
Proof.
  apply (receive_without_callbacks_is_silent (P := Demo.platform)); reflexivity.
Defined.

Lemma payload_shapes_witness :
  deliveries (trace_of (socket_onmessage (DataBuffer Cases.pong_bytes) Demo.live)) =
    [Demo.pong] /\
  deliveries
    (trace_of (socket_onmessage (DataBufferArray [Cases.pong_bytes]) Demo.live)) =
    [] /\
  error_reports
    (trace_of (socket_onmessage (DataBufferArray [Cases.pong_bytes]) Demo.live)) =
    [parse_error unsupported_data].
Proof.
  destruct (payload_shapes (P := Demo.platform) Demo.live Cases.pong_bytes
              Demo.pong (fun _ => CbReturns) (fun _ => CbReturns)
              eq_refl eq_refl eq_refl) as [H1 [_ [_ [H4 H5]]]].
  split; [exact H1|]. split; [exact H4|exact H5].
Defined.

Lemma connected_transport_holds_a_socket_witness :
  coherent (state_of (start [SocketOpens 2] Demo.live)) = true /\
  coherent (state_of (close Demo.open_socket Demo.live)) = true /\
  coherent (state_of (socket_onclose Demo.live)) = true.
Proof.
  destruct (connected_transport_holds_a_socket (P := Demo.platform) Demo.live
              eq_refl) as [H1 [_ [H3 [H4 _]]]].
  split; [apply H1|]. split; [apply H3|exact H4].
Defined.

Lemma replace_http_prefix_normalises_witness :
  replace_http_prefix "ws://localhost:8080/http" = "ws://localhost:8080/http"%string /\
  (exists c1 c2 c3 c4 rest,
     "HTTPS://example.com/http"%string =
       String c1 (String c2 (String c3 (String c4 rest))) /\
     replace_http_prefix "HTTPS://example.com/http" = String "w" (String "s" rest)).
Proof.
  split.
  - apply (proj1 (replace_http_prefix_normalises "ws://localhost:8080/http")).
    reflexivity.
  - apply (proj1 (proj2 (replace_http_prefix_normalises "HTTPS://example.com/http"))).
    reflexivity.
Defined.


Lemma start_send_close_witness :
  exists t1 tr,
    start ([Demo.error_event 1] ++ SocketOpens 2 :: []) Demo.fresh =
      (Returned tt, t1, tr) /\
    send Demo.ping (Demo.good_write :: []) t1 =
      (Returned tt, t1, [SocketSend 2 (Demo.stringify Demo.ping)]) /\
    socket_closes (trace_of (close Demo.open_socket t1)) = [2] /\
    send Demo.ping (Demo.good_write :: []) (state_of (close Demo.open_socket t1)) =
      (Threw not_connected, state_of (close Demo.open_socket t1), []).
Proof.
  apply (start_send_close (P := Demo.platform) Demo.fresh [Demo.error_event 1] 2 []
           Demo.ping Demo.good_write [] Demo.open_socket).
  - reflexivity.
  - simpl. lia.
  - repeat constructor; discriminate.
  - reflexivity.
  - reflexivity.
Defined.

Lemma failed_start_can_be_retried_witness :
  exists t1 tr1 t2,
    start [Demo.error_event 1; Demo.error_event 2; Demo.error_event 3] Demo.fresh =
      (Threw (connection_error Demo.refused), t1, tr1) /\
    start (SocketOpens 4 :: []) t1 = (Returned tt, t2, [construction t1]) /\
    connected t2 = true /\ socket t2 = Some 4.
Proof.
  apply (failed_start_can_be_retried (P := Demo.platform) Demo.fresh
           (Demo.error_event 1) (Demo.error_event 2) (Demo.error_event 3) []
           (connection_error Demo.refused) (connection_error Demo.refused)
           (connection_error Demo.refused) 4 []); reflexivity.
Defined.
